(** * Local Conditional Card: a shallow embedding of
      [src/local-conditional-card.ts] and the properties of its
      visibility state machine, event coalescer and widget cache.

    The element instance ([this]) and the part of the browser it talks to
    (microtask queue, animation frames, [localStorage], dispatched DOM
    events, created child elements) are explicit records; every method of
    the class is a function on them.  Code that can throw returns an
    [Outcome]. *)

From stdpp Require Import gmap strings list.

Local Open Scope string_scope.

(** ** Values *)

(** The constants imported from [./const]. *)

(** Modelled from the spec: the action names of [./const] ([SHOW], [HIDE],
    [TOGGLE]); the file is not part of the sources, the spec names the
    signals [show], [hide] and [toggle]. *)
Definition SHOW : string := "show".
Definition HIDE : string := "hide".
Definition TOGGLE : string := "toggle".

(** A value of TypeScript type [any], as far as the card inspects one: it
    is only ever compared with a string by [===] (the [switch] of
    [_processQueuedLovelaceEvent]).  [AObject] stands for every
    non-primitive value (objects, arrays, functions). *)
Inductive Any : Type :=
| AUndefined
| ANull
| ABoolean (b : bool)
| ANumber (n : Z)
| AString (s : string)
| AObject.

(** What [_computeVisibility] evaluates to at run time.  Its declared type
    is [boolean], but the last operand of the [||] chain is
    [this.card && (...)], which is [undefined] while no child card exists. *)
Inductive Vis : Type :=
| VBool (b : bool)
| VUndefined.

(** Truthiness, as used by [!x] and by the template. *)
Definition truthy (v : Vis) : bool :=
  match v with
  | VBool b => b
  | VUndefined => false
  end.

(** [a !== b] on such values. *)
Definition strict_ne (a b : Vis) : bool :=
  match a, b with
  | VBool x, VBool y => negb (eqb x y)
  | VUndefined, VUndefined => false
  | _, _ => true
  end.

(** The own properties of a [Record<string, any>], and the members every
    ordinary object inherits from [Object.prototype]: the [in] operator and
    property reads see both. *)
Definition Object_prototype : list string :=
  [ "constructor"; "hasOwnProperty"; "isPrototypeOf"; "propertyIsEnumerable";
    "toLocaleString"; "toString"; "valueOf"; "__proto__";
    "__defineGetter__"; "__defineSetter__"; "__lookupGetter__";
    "__lookupSetter__" ].

Definition inherited (k : string) : bool :=
  existsb (String.eqb k) Object_prototype.

(** [k in r] *)
Definition Record_in (k : string) (r : gmap string Any) : bool :=
  match r !! k with
  | Some _ => true
  | None => inherited k
  end.

(** [r[k]] *)
Definition Record_get (k : string) (r : gmap string Any) : Any :=
  match r !! k with
  | Some v => v
  | None => if inherited k then AObject else AUndefined
  end.

(** ** Configuration *)

(** [LovelaceCardConfig]: the wrapped card's configuration is opaque to the
    wrapper, which only serialises it and reads its [type].
    [type] is its [type] member when it has one, [members] are its other
    members, and [stringify] is what [JSON.stringify] yields on the object
    ([None] when that throws: circular references, BigInt members). *)
Module CardConfig.
Record t : Type := mk {
  type : option string;
  members : gmap string Any;
  stringify : option string;
}.
End CardConfig.

(** Modelled from the spec: [LocalConditionalCardConfig] of [./types]
    (section 3: [{ id, default, card, persist_state?, hide_in_preview? }]).
    [card] is [None] when the member is missing. *)
Module Config.
Record t : Type := mk {
  id : string;
  default : string;
  card : option CardConfig.t;
  persist_state : option bool;
  hide_in_preview : option bool;
}.
End Config.

(** [x ?? false] and plain truthiness of an optional boolean member. *)
Definition or_false (o : option bool) : bool :=
  match o with
  | Some b => b
  | None => false
  end.

(** ** Broadcast events *)

(** Modelled from the spec: [LovelaceDomEvent] of [./types] (section 6:
    [{ detail: { <key>: { ids: Array<string|mapping>, action: string } } }]). *)
Inductive IdEntry : Type :=
| IdString (s : string)
| IdRecord (r : gmap string Any).

Record LovelaceDomDetail : Type := mkDetail {
  ids : list IdEntry;
  action : string;
}.

(** The three ways the guard of [_processQueuedLovelaceEvent] (lines
    293-298) can go for an event taken from the document:
    - [LovelaceDomEvent d]: [detail] has the entry, with an [ids] array and
      an [action];
    - [ForeignEvent]: the guard is false (no entry, no [ids], no [action],
      or [ids] is not an array);
    - [MalformedEvent]: evaluating the guard throws ([detail] is missing, or
      the entry is not an object). *)
Inductive Event : Type :=
| LovelaceDomEvent (d : LovelaceDomDetail)
| ForeignEvent
| MalformedEvent.

(** ** Child elements *)

(** What a call of the child's [getCardSize] does. *)
Inductive SizeCall : Type :=
| SizeReturns (n : Z)
| SizeThrows.

(** A child card element.  [ref] is its identity (two elements are the
    same object iff their [ref]s agree); [getCardSize] is [None] when the
    element has no such method. *)
Module Element.
Record t : Type := mk {
  ref : nat;
  localName : string;
  getCardSize : option SizeCall;
}.
End Element.

(** The host session handle is opaque. *)
Definition HomeAssistant : Type := nat.

(** The card helpers of the host: [createCardElement], when present, maps a
    card configuration to the tag name and size capability of the element
    it builds. *)
Record CardHelpers : Type := mkHelpers {
  createCardElement : option (CardConfig.t -> string * option SizeCall);
}.

(** [window.loadCardHelpers]. *)
Inductive LoadCardHelpers : Type :=
| LoaderMissing
| LoaderRejects
| LoaderResolves (h : option CardHelpers).

(** ** Deferred work *)

(** Who awaits a call of [createCard]. *)
Inductive CreateCardCaller : Type :=
| FromSetConfig
| FromHost.

(** Who awaits a call of [_createCard]: [createCard], or the rebuild
    listener registered for element [el] under cache key [key]. *)
Inductive CreateCaller : Type :=
| InCreateCard (k : CreateCardCaller)
| InRebuild (key : string) (el : Element.t).

(** The entries of the microtask queue: the closures passed to
    [queueMicrotask], and the continuations of the [async] methods at each
    of their [await]s. *)
Inductive Task : Type :=
| SetConfigCreate (c : CardConfig.t)
| CreateCardStart (c : CardConfig.t) (k : CreateCardCaller)
| RebuildStart (key : string) (el : Element.t) (c : CardConfig.t)
| CreateBody (c : CardConfig.t) (k : CreateCaller)
| CreateResume (el : Element.t) (k : CreateCaller)
| SetConfigFinish
| RestoreState (c : Config.t)
| PersistState.

(** ** The instance and its environment *)

(** The fields of [LocalConditionalCard]. *)
Record Card : Type := mkCard {
  preview : bool;
  config : option Config.t;
  show : bool;
  visible : Vis;
  cardHelpers : option CardHelpers;
  cardCache : gmap string Element.t;
  card : option Element.t;
  _hass : option HomeAssistant;
  _pendingEvent : bool;
  _lastEvent : option Event;
}.

(** The part of the browser the card acts on. *)
Record Env : Type := mkEnv {
  (** [window.loadCardHelpers], taken to answer every call alike *)
  loadCardHelpers : LoadCardHelpers;
  (** [localStorage]; [None] when touching it throws (privacy mode) *)
  localStorage : option (gmap string string);
  (** the calls of [localStorage.setItem] that went through, latest first *)
  storageWrites : list (string * string);
  (** pending microtasks, oldest first *)
  microtasks : list Task;
  (** callbacks handed to [requestAnimationFrame] and not yet run; the card
      only ever passes [_processQueuedLovelaceEvent] *)
  frames : nat;
  (** the names of the events dispatched on the card, latest first *)
  dispatched : list string;
  (** whether [_handleLovelaceDomEvent] is registered on the document *)
  listening : bool;
  (** the next fresh element identity *)
  nextRef : nat;
  (** the [hass] member of each created element *)
  elementHass : gmap nat HomeAssistant;
  (** the [ll-rebuild] listener of each created element *)
  rebuildListeners : gmap nat (string * CardConfig.t);
}.

Record World : Type := mkWorld {
  this : Card;
  env : Env;
}.

(** The state of a freshly constructed element (field initialisers, lines
    38-55). *)
Definition newCard : Card :=
  {| preview := false; config := None; show := true; visible := VBool false;
     cardHelpers := None; cardCache := ∅; card := None; _hass := None;
     _pendingEvent := false; _lastEvent := None |}.

(** *** Field updates *)

Definition set_preview (v : bool) (w : World) : World :=
  let '(mkWorld (mkCard _ b c d e f g h i j) n) := w in
  mkWorld (mkCard v b c d e f g h i j) n.
Definition set_config (v : option Config.t) (w : World) : World :=
  let '(mkWorld (mkCard a _ c d e f g h i j) n) := w in
  mkWorld (mkCard a v c d e f g h i j) n.
Definition set_show (v : bool) (w : World) : World :=
  let '(mkWorld (mkCard a b _ d e f g h i j) n) := w in
  mkWorld (mkCard a b v d e f g h i j) n.
Definition set_visible (v : Vis) (w : World) : World :=
  let '(mkWorld (mkCard a b c _ e f g h i j) n) := w in
  mkWorld (mkCard a b c v e f g h i j) n.
Definition set_cardHelpers (v : option CardHelpers) (w : World) : World :=
  let '(mkWorld (mkCard a b c d _ f g h i j) n) := w in
  mkWorld (mkCard a b c d v f g h i j) n.
Definition set_cardCache (v : gmap string Element.t) (w : World) : World :=
  let '(mkWorld (mkCard a b c d e _ g h i j) n) := w in
  mkWorld (mkCard a b c d e v g h i j) n.
Definition set_card (v : option Element.t) (w : World) : World :=
  let '(mkWorld (mkCard a b c d e f _ h i j) n) := w in
  mkWorld (mkCard a b c d e f v h i j) n.
Definition set_hass (v : option HomeAssistant) (w : World) : World :=
  let '(mkWorld (mkCard a b c d e f g _ i j) n) := w in
  mkWorld (mkCard a b c d e f g v i j) n.
Definition set_pendingEvent (v : bool) (w : World) : World :=
  let '(mkWorld (mkCard a b c d e f g h _ j) n) := w in
  mkWorld (mkCard a b c d e f g h v j) n.
Definition set_lastEvent (v : option Event) (w : World) : World :=
  let '(mkWorld (mkCard a b c d e f g h i _) n) := w in
  mkWorld (mkCard a b c d e f g h i v) n.

Definition set_localStorage (v : option (gmap string string)) (w : World) : World :=
  let '(mkWorld t (mkEnv a _ c d e f g h i j)) := w in
  mkWorld t (mkEnv a v c d e f g h i j).
Definition set_storageWrites (v : list (string * string)) (w : World) : World :=
  let '(mkWorld t (mkEnv a b _ d e f g h i j)) := w in
  mkWorld t (mkEnv a b v d e f g h i j).
Definition set_microtasks (v : list Task) (w : World) : World :=
  let '(mkWorld t (mkEnv a b c _ e f g h i j)) := w in
  mkWorld t (mkEnv a b c v e f g h i j).
Definition set_frames (v : nat) (w : World) : World :=
  let '(mkWorld t (mkEnv a b c d _ f g h i j)) := w in
  mkWorld t (mkEnv a b c d v f g h i j).
Definition set_dispatched (v : list string) (w : World) : World :=
  let '(mkWorld t (mkEnv a b c d e _ g h i j)) := w in
  mkWorld t (mkEnv a b c d e v g h i j).
Definition set_listening (v : bool) (w : World) : World :=
  let '(mkWorld t (mkEnv a b c d e f _ h i j)) := w in
  mkWorld t (mkEnv a b c d e f v h i j).
Definition set_nextRef (v : nat) (w : World) : World :=
  let '(mkWorld t (mkEnv a b c d e f g _ i j)) := w in
  mkWorld t (mkEnv a b c d e f g v i j).
Definition set_elementHass (v : gmap nat HomeAssistant) (w : World) : World :=
  let '(mkWorld t (mkEnv a b c d e f g h _ j)) := w in
  mkWorld t (mkEnv a b c d e f g h v j).
Definition set_rebuildListeners (v : gmap nat (string * CardConfig.t)) (w : World) : World :=
  let '(mkWorld t (mkEnv a b c d e f g h i _)) := w in
  mkWorld t (mkEnv a b c d e f g h i v).

(** *** Browser primitives *)

(** [queueMicrotask(t)] *)
Definition queueMicrotask (t : Task) (w : World) : World :=
  set_microtasks (microtasks (env w) ++ [t])%list w.

(** [requestAnimationFrame(this._processQueuedLovelaceEvent)] *)
Definition requestAnimationFrame (w : World) : World :=
  set_frames (S (frames (env w))) w.

(** [this.dispatchEvent(new Event(name, ...))]; the listeners are the
    host's and are not run here. *)
Definition dispatchEvent (name : string) (w : World) : World :=
  set_dispatched (name :: dispatched (env w)) w.

(** ** Results of code that can throw *)

Inductive Outcome (A : Type) : Type :=
| Returned (a : A)
| Thrown (e : string).
Arguments Returned {A} a.
Arguments Thrown {A} e.

(** ** The methods of the card *)

(** [_getStorageKey(config?)], lines 336-338: reading [.id] of
    [config ?? this.config] throws when neither is set. *)
Definition _getStorageKey (c : option Config.t) (w : World) : Outcome string :=
  match c with
  | Some c => Returned ("local_conditional_card_state_" ++ Config.id c)
  | None =>
      match config (this w) with
      | Some c => Returned ("local_conditional_card_state_" ++ Config.id c)
      | None => Thrown "TypeError"
      end
  end.

(** [this.config?.hide_in_preview ?? false] *)
Definition hide_in_preview (w : World) : bool :=
  match config (this w) with
  | Some c => or_false (Config.hide_in_preview c)
  | None => false
  end.

(** [this.config?.persist_state], as a condition *)
Definition persist_state (w : World) : bool :=
  match config (this w) with
  | Some c => or_false (Config.persist_state c)
  | None => false
  end.

(** [this.card.localName === "hui-error-card"] *)
Definition isErrorCard (el : Element.t) : bool :=
  String.eqb (Element.localName el) "hui-error-card".

(** [_computeVisibility], lines 160-169.  [a || b || c] yields the first
    truthy operand, else the last one; [x && y] yields [x] when [x] is
    falsy, so the chain ends in [undefined] when there is no child card. *)
Definition _computeVisibility (w : World) : Vis :=
  if preview (this w) && negb (hide_in_preview w) then VBool true
  else if show (this w) then VBool true
  else match card (this w) with
       | None => VUndefined
       | Some el => VBool (isErrorCard el || isErrorCard el)
       end.

(** [_computeAndSetVisible], lines 141-158. *)
Definition _computeAndSetVisible (w : World) : World :=
  let prev := visible (this w) in
  let w := set_visible (_computeVisibility w) w in
  if strict_ne prev (visible (this w)) then
    let w := if persist_state w then queueMicrotask PersistState w else w in
    dispatchEvent "card-visibility-changed" w
  else w.

(** [setConfig], lines 65-104.  The argument is [None] for a missing
    configuration object. *)
Definition setConfig (c : option Config.t) (w : World) : Outcome unit * World :=
  match c with
  | None => (Thrown "Missing configuration", w)
  | Some c =>
      let w := set_config (Some c) w in
      let w := set_show (String.eqb (Config.default c) "show") w in
      match Config.card c with
      | None => (Thrown "No card configured", w)
      | Some cc =>
          let w := queueMicrotask (SetConfigCreate cc) w in
          let w := if or_false (Config.persist_state c)
                   then queueMicrotask (RestoreState c) w else w in
          (Returned tt, w)
      end
  end.

(** The closure queued at lines 88-102. *)
Definition restoreState (c : Config.t) (w : World) : World :=
  match localStorage (env w), _getStorageKey (Some c) w with
  | Some store, Returned key =>
      match store !! key with
      | Some lastSaved =>
          let parsed := String.eqb lastSaved "true" in
          if negb (eqb parsed (show (this w)))
          then _computeAndSetVisible (set_show parsed w)
          else w
      | None => w
      end
  | _, _ => w
  end.

(** The closure queued at lines 147-153; [`${this.show}`] reads the field
    when the closure runs. *)
Definition persistState (w : World) : World :=
  match localStorage (env w), _getStorageKey None w with
  | Some store, Returned key =>
      let value := if show (this w) then "true" else "false" in
      set_storageWrites ((key, value) :: storageWrites (env w))
        (set_localStorage (Some (<[key := value]> store)) w)
  | _, _ => w
  end.

(** The [hass] setter, lines 112-118. *)
Definition hass_set (h : option HomeAssistant) (w : World) : World :=
  match config (this w), h with
  | Some _, Some hv =>
      let w := set_hass h w in
      match card (this w) with
      | Some el => set_elementHass (<[Element.ref el := hv]> (elementHass (env w))) w
      | None => w
      end
  | _, _ => w
  end.

(** The [hidden] getter, lines 121-123. *)
Definition hidden (w : World) : bool := negb (truthy (visible (this w))).

(** [render], lines 127-132: the class of the wrapping [div] and the child
    placed in it. *)
Definition render (w : World) : string * option Element.t :=
  ((if truthy (visible (this w)) then "" else "hidden"), card (this w)).

(** [updated], lines 135-139; [changed] lists the changed properties. *)
Definition updated (changed : list string) (w : World) : World :=
  if existsb (String.eqb "show") changed || existsb (String.eqb "preview") changed
     || existsb (String.eqb "config") changed
  then _computeAndSetVisible w
  else w.

(** [connectedCallback] and [disconnectedCallback], lines 173-181. *)
Definition connectedCallback (w : World) : World := set_listening true w.
Definition disconnectedCallback (w : World) : World := set_listening false w.

(** [_ensureHelpers], lines 185-193, as one call run to its end: the test
    of [cardHelpers], the call of the loader and the assignment of its
    answer after the [await].  In the source other work can run between
    the test and the assignment; the loader is taken to answer every call
    alike (the field [loadCardHelpers] never changes), so calls that
    overlap at the [await] assign the same value.  A loader whose answer
    changes from call to call is outside this model. *)
Definition _ensureHelpers (w : World) : World :=
  match cardHelpers (this w) with
  | Some _ => w
  | None =>
      match loadCardHelpers (env w) with
      | LoaderMissing => set_cardHelpers None w
      | LoaderRejects => set_cardHelpers None w
      | LoaderResolves h => set_cardHelpers h w
      end
  end.

(** [getCardSize], lines 195-209. *)
Definition getCardSize (w : World) : Z :=
  if negb (truthy (_computeVisibility w)) then 0%Z
  else match card (this w) with
       | None => 1%Z
       | Some el =>
           match Element.getCardSize el with
           | Some (SizeReturns n) => n
           | Some SizeThrows => 1%Z
           | None => 1%Z
           end
       end.

(** [_cardConfigKey], lines 222-230; [String(cfg)] of an object is
    ["[object Object]"]. *)
Definition _cardConfigKey (cfg : CardConfig.t) : string :=
  match CardConfig.stringify cfg with
  | Some s => s
  | None =>
      match CardConfig.type cfg with
      | Some t => t
      | None => "[object Object]"
      end
  end.

(** [el.hass = this._hass] when a session handle is known. *)
Definition bindHass (el : Element.t) (w : World) : World :=
  match _hass (this w) with
  | Some hv => set_elementHass (<[Element.ref el := hv]> (elementHass (env w))) w
  | None => w
  end.

(** The synchronous part of [_createCard] after its [await], lines
    234-272.  Without a [createCardElement] helper the fallback assigns to
    [localName], which is a getter-only accessor of [Element]: in strict
    code (a class body) that assignment throws a [TypeError]. *)
Definition _createCard_body (cardConfig : CardConfig.t) (w : World)
  : Outcome Element.t * World :=
  let key := _cardConfigKey cardConfig in
  match cardCache (this w) !! key with
  | Some el => (Returned el, w)
  | None =>
      let r := nextRef (env w) in
      let w := set_nextRef (S r) w in
      match cardHelpers (this w) with
      | Some (mkHelpers (Some create)) =>
          let '(name, size) := create cardConfig in
          let el := Element.mk r name size in
          let w := set_rebuildListeners
                     (<[r := (key, cardConfig)]> (rebuildListeners (env w))) w in
          let w := bindHass el w in
          let w := set_cardCache (<[key := el]> (cardCache (this w))) w in
          (Returned el, w)
      | _ => (Thrown "TypeError", w)
      end
  end.

(** [_createCard] run without interruption at its [await]. *)
Definition _createCard (cardConfig : CardConfig.t) (w : World)
  : Outcome Element.t * World :=
  _createCard_body cardConfig (_ensureHelpers w).

(** The rest of [createCard] once [_createCard] has delivered [el], lines
    213-219. *)
Definition createCard_resume (el : Element.t) (w : World) : World :=
  let w := set_card (Some el) w in
  let w := bindHass el w in
  _computeAndSetVisible w.

(** The rest of the rebuild listener once [_createCard] has delivered
    [newEl], lines 256-263.  The replacement in the DOM tree is not
    modelled. *)
Definition rebuild_resume (key : string) (newEl : Element.t) (w : World) : World :=
  let w := set_cardCache (<[key := newEl]> (cardCache (this w))) w in
  let w := set_card (Some newEl) w in
  let w := bindHass newEl w in
  _computeAndSetVisible w.

(** One microtask.  An [await] hands the continuation back to the queue. *)
Definition runTask (t : Task) (w : World) : World :=
  match t with
  | SetConfigCreate c =>
      queueMicrotask (CreateCardStart c FromSetConfig) (_ensureHelpers w)
  | CreateCardStart c k =>
      queueMicrotask (CreateBody c (InCreateCard k)) (_ensureHelpers w)
  | RebuildStart key el c =>
      queueMicrotask (CreateBody c (InRebuild key el)) (_ensureHelpers w)
  | CreateBody c k =>
      match _createCard_body c w with
      | (Returned el, w) => queueMicrotask (CreateResume el k) w
      | (Thrown _, w) => w
      end
  | CreateResume el (InCreateCard k) =>
      let w := createCard_resume el w in
      match k with
      | FromSetConfig => queueMicrotask SetConfigFinish w
      | FromHost => w
      end
  | CreateResume el (InRebuild key _) => rebuild_resume key el w
  | SetConfigFinish => _computeAndSetVisible w
  | RestoreState c => restoreState c w
  | PersistState => persistState w
  end.

(** [createCard(config)] called by the host, up to its first [await]. *)
Definition createCard (c : CardConfig.t) (w : World) : World :=
  runTask (CreateCardStart c FromHost) w.

(** An [ll-rebuild] event on a created element: its listener (lines
    251-265) queues the rebuild. *)
Definition ll_rebuild (el : Element.t) (w : World) : World :=
  match rebuildListeners (env w) !! Element.ref el with
  | Some (key, c) => queueMicrotask (RebuildStart key el c) w
  | None => w
  end.

(** The browser runs the oldest microtask. *)
Definition runMicrotask (w : World) : World :=
  match microtasks (env w) with
  | [] => w
  | t :: rest => runTask t (set_microtasks rest w)
  end.

(** ... and keeps doing so while there are any ([n] bounds the number of
    tasks run). *)
Fixpoint runMicrotasks (n : nat) (w : World) : World :=
  match n with
  | O => w
  | S n =>
      match microtasks (env w) with
      | [] => w
      | _ => runMicrotasks n (runMicrotask w)
      end
  end.

(** ** Event handling *)

(** [_handleLovelaceDomEvent], lines 277-283. *)
Definition _handleLovelaceDomEvent (e : Event) (w : World) : World :=
  let w := set_lastEvent (Some e) w in
  if _pendingEvent (this w) then w
  else requestAnimationFrame (set_pendingEvent true w).

(** The predicate handed to [ids.find] at line 303, for a set
    configuration: [typeof id === "object" && this.config.id in id]. *)
Definition mentions (c : Config.t) (entry : IdEntry) : bool :=
  match entry with
  | IdString _ => false
  | IdRecord r => Record_in (Config.id c) r
  end.

(** [ids.includes(this.config?.id)], line 308: a string entry is the id
    itself; a record is never equal to a string, and no entry is
    [undefined]. *)
Definition includes (c : option Config.t) (l : list IdEntry) : bool :=
  match c with
  | None => false
  | Some c =>
      existsb (fun entry => match entry with
                            | IdString s => String.eqb s (Config.id c)
                            | IdRecord _ => false
                            end) l
  end.

(** The decoding of a payload, lines 299-309: the value of [action] when
    the [switch] is reached. *)
Definition effectiveAction (c : option Config.t) (d : LovelaceDomDetail) : Any :=
  if String.eqb (action d) "set" then
    match c with
    | None => AString (action d)
    | Some c =>
        match List.find (mentions c) (ids d) with
        | Some (IdRecord r) => Record_get (Config.id c) r
        | _ => AString (action d)
        end
    end
  else if includes c (ids d) then AString (action d) else AString "none".

(** The [switch], lines 311-324: the new value of [this.show]. *)
Definition applyAction (a : Any) (shown : bool) : bool :=
  match a with
  | AString s =>
      if String.eqb s SHOW then true
      else if String.eqb s HIDE then false
      else if String.eqb s TOGGLE then negb shown
      else shown
  | _ => shown
  end.

(** [_processQueuedLovelaceEvent], lines 285-332. *)
Definition _processQueuedLovelaceEvent (w : World) : World :=
  let e := _lastEvent (this w) in
  let w := set_lastEvent None (set_pendingEvent false w) in
  match e with
  | None => w
  | Some (LovelaceDomEvent d) =>
      let a := effectiveAction (config (this w)) d in
      _computeAndSetVisible (set_show (applyAction a (show (this w))) w)
  | Some ForeignEvent => w
  | Some MalformedEvent => w
  end.

(** An event of the broadcast channel reaches the document. *)
Definition documentEvent (e : Event) (w : World) : World :=
  if listening (env w) then _handleLovelaceDomEvent e w else w.

(** The browser reaches a frame boundary and runs the callbacks requested
    since the last one. *)
Definition animationFrame (w : World) : World :=
  Nat.iter (frames (env w)) _processQueuedLovelaceEvent (set_frames 0 w).

(** A burst of events followed by the frame boundary, and a run of such
    frames. *)
Definition frame (burst : list Event) (w : World) : World :=
  animationFrame (foldl (fun w e => _handleLovelaceDomEvent e w) w burst).

Definition runFrames (bursts : list (list Event)) (w : World) : World :=
  foldl (fun w burst => frame burst w) w bursts.

(** ** A freshly constructed card *)

(** The world right after the constructor: nothing queued, nothing
    dispatched, no element created yet. *)
Definition boot (loader : LoadCardHelpers) (storage : option (gmap string string))
  : World :=
  {| this := newCard;
     env := {| loadCardHelpers := loader; localStorage := storage;
               storageWrites := []; microtasks := []; frames := 0;
               dispatched := []; listening := false; nextRef := 0;
               elementHass := ∅; rebuildListeners := ∅ |} |}.

(** ** Runs of a card *)

(** What the host and the browser can do to a card. *)
Inductive Op : Type :=
| OpSetConfig (c : option Config.t)
| OpSetPreview (b : bool)
| OpSetHass (h : option HomeAssistant)
| OpUpdated (changed : list string)
| OpConnected
| OpDisconnected
| OpCreateCard (c : CardConfig.t)
| OpRebuild (el : Element.t)
| OpDocumentEvent (e : Event)
| OpAnimationFrame
| OpMicrotask.

Definition perform (w : World) (op : Op) : World :=
  match op with
  | OpSetConfig c => snd (setConfig c w)
  | OpSetPreview b => set_preview b w
  | OpSetHass h => hass_set h w
  | OpUpdated changed => updated changed w
  | OpConnected => connectedCallback w
  | OpDisconnected => disconnectedCallback w
  | OpCreateCard c => createCard c w
  | OpRebuild el => ll_rebuild el w
  | OpDocumentEvent e => documentEvent e w
  | OpAnimationFrame => animationFrame w
  | OpMicrotask => runMicrotask w
  end.

(** ** Notions used in the statements *)

(** *** Visibility and storage *)

(** The current child is the error indicator. *)
Definition currentIsError (w : World) : bool :=
  match card (this w) with
  | Some el => isErrorCard el
  | None => false
  end.

(** [w] with [value] stored under the key of configuration [c]. *)
Definition stored (c : Config.t) (value : string) (store : gmap string string)
    (w : World) : World :=
  set_localStorage
    (Some (<["local_conditional_card_state_" ++ Config.id c := value]> store)) w.

(** *** The coalescer *)

(** The state of the coalescer: the pending flag, the one-slot buffer and
    the number of deliveries scheduled with the browser. *)
Definition coalescer (w : World) : bool * option Event * nat :=
  (_pendingEvent (this w), _lastEvent (this w), frames (env w)).

(** The flag is set exactly while one delivery is scheduled, and exactly
    while the buffer is occupied. *)
Definition coalesced (w : World) : Prop :=
  frames (env w) = (if _pendingEvent (this w) then 1 else 0)
  /\ (if _pendingEvent (this w) then is_Some (_lastEvent (this w))
      else _lastEvent (this w) = None).

(** The coalescer is idle: no flag, empty buffer, nothing scheduled. *)
Definition idle (w : World) : Prop := coalescer w = (false, None, 0).

(** The state after a non-empty burst: the last event is buffered and one
    delivery is scheduled. *)
Definition buffered (e : Event) (w : World) : World :=
  set_frames 1 (set_pendingEvent true (set_lastEvent (Some e) w)).

(** *** Signals *)

(** The three signals a card reacts to. *)
Inductive Signal : Type :=
| SigShow
| SigHide
| SigToggle.

Definition signalName (s : Signal) : string :=
  match s with
  | SigShow => SHOW
  | SigHide => HIDE
  | SigToggle => TOGGLE
  end.

(** [show] maps to true, [hide] to false, [toggle] to negation. *)
Definition applySignal (shown : bool) (s : Signal) : bool :=
  match s with
  | SigShow => true
  | SigHide => false
  | SigToggle => negb shown
  end.

(** [e] carries signal [s] for the card configured by [c]: a payload with
    that action whose [ids] list the card's id. *)
Definition targeted (c : Config.t) (s : Signal) (e : Event) : Prop :=
  exists l, e = LovelaceDomEvent (mkDetail l (signalName s))
            /\ IdString (Config.id c) ∈ l.

(** *** The cache *)

(** The helpers offer [createCardElement]. *)
Definition canCreate (w : World) : Prop :=
  exists create, cardHelpers (this w) = Some (mkHelpers (Some create)).

(** Cached elements were created earlier, by the helpers, and no element
    sits under two keys. *)
Definition cache_ok (w : World) : Prop :=
  (forall k el, cardCache (this w) !! k = Some el ->
                Element.ref el < nextRef (env w) /\ canCreate w)
  /\ (forall k1 k2 el1 el2,
        cardCache (this w) !! k1 = Some el1 ->
        cardCache (this w) !! k2 = Some el2 ->
        Element.ref el1 = Element.ref el2 -> k1 = k2).

(** The key of a configuration that cannot be serialised:
    [cfg.type ?? String(cfg)]. *)
Definition fallbackKey (c : CardConfig.t) : string :=
  match CardConfig.type c with
  | Some t => t
  | None => "[object Object]"
  end.

(** The fields the cache logic depends on. *)
Definition widget (w : World)
  : gmap string Element.t * nat * option CardHelpers
    * gmap nat (string * CardConfig.t) :=
  (cardCache (this w), nextRef (env w), cardHelpers (this w),
   rebuildListeners (env w)).

(** What a queued task assumes about the cache: a rebuild carries the key
    of its configuration, and the element a rebuild resumes with is the
    one cached under that key. *)
Definition task_ok (w : World) (t : Task) : Prop :=
  match t with
  | RebuildStart key _ c => key = _cardConfigKey c
  | CreateBody c (InRebuild key _) => key = _cardConfigKey c
  | CreateResume el (InRebuild key _) => cardCache (this w) !! key = Some el
  | _ => True
  end.

(** The tasks that assume nothing. *)
Definition harmless (t : Task) : Prop :=
  match t with
  | RebuildStart _ _ _ => False
  | CreateBody _ (InRebuild _ _) => False
  | CreateResume _ (InRebuild _ _) => False
  | _ => True
  end.

(** Every rebuild listener was registered with the key of its
    configuration. *)
Definition listeners_ok (w : World) : Prop :=
  forall r key c, rebuildListeners (env w) !! r = Some (key, c) ->
                  key = _cardConfigKey c.

Definition wf (w : World) : Prop :=
  cache_ok w /\ listeners_ok w /\ Forall (task_ok w) (microtasks (env w)).

(** [w'] differs from [w] in nothing the cache logic depends on, except
    for harmless tasks queued. *)
Definition calm (w w' : World) : Prop :=
  widget w' = widget w
  /\ exists ts, microtasks (env w') = (microtasks (env w) ++ ts)%list
                /\ Forall harmless ts.

(** *** Concrete cards and hosts *)

(** A double quote, for serialised configurations. *)
Definition dq : string := String (Ascii.ascii_of_nat 34) "".

(** The configuration [{type: "x"}] of some card, and its serialisation. *)
Definition xCard : CardConfig.t :=
  CardConfig.mk (Some "x") ∅
    (Some ("{" ++ dq ++ "type" ++ dq ++ ":" ++ dq ++ "x" ++ dq ++ "}")).

(** Two configurations of type [x] that cannot be serialised and differ in
    their other members. *)
Definition cyclicA : CardConfig.t :=
  CardConfig.mk (Some "x") {[ "a" := AObject ]} None.

Definition cyclicB : CardConfig.t :=
  CardConfig.mk (Some "x") {[ "b" := AObject ]} None.

(** A host whose helpers build a [hui-x] element without [getCardSize]. *)
Definition xHost : LoadCardHelpers :=
  LoaderResolves (Some (mkHelpers (Some (fun _ => ("hui-x", None))))).

(** The card with id ["a"], hidden by default, and a [toggle] addressed to
    it. *)
Definition cardA : Config.t := Config.mk "a" "hide" (Some xCard) None None.

Definition toggleA : Event := LovelaceDomEvent (mkDetail [IdString "a"] "toggle").

(** A fresh card with [show] and the child set by hand. *)
Definition withChild (shown : bool) (child : option Element.t) : World :=
  set_card child (set_show shown (boot LoaderMissing None)).

(** *** Further notions *)

(** The payload of [e] names the card: by a mapping with its id when the
    action is ["set"], by its id as a string otherwise. *)
Definition addresses (c : option Config.t) (e : Event) : bool :=
  match e with
  | LovelaceDomEvent d =>
      if String.eqb (action d) "set"
      then match c with
           | Some c => existsb (mentions c) (ids d)
           | None => false
           end
      else includes c (ids d)
  | _ => false
  end.

(** The storage and the record of the writes to it. *)
Definition storage (w : World) : option (gmap string string) * list (string * string) :=
  (localStorage (env w), storageWrites (env w)).

(** [w'] has the storage and the configuration of [w]; the tasks queued in
    between include a persisting closure only if persistence is on. *)
Definition still (w w' : World) : Prop :=
  storage w' = storage w
  /\ config (this w') = config (this w)
  /\ exists ts, microtasks (env w') = (microtasks (env w) ++ ts)%list
                /\ (persist_state w = false -> Forall (fun t => t <> PersistState) ts).

(** The operation keeps persistence off. *)
Definition persistence_off (op : Op) : Prop :=
  match op with
  | OpSetConfig (Some c) => or_false (Config.persist_state c) = false
  | _ => True
  end.

(** A write as the persisting closure makes them. *)
Definition write_ok (kv : string * string) : Prop :=
  (kv.2 = "true" \/ kv.2 = "false")
  /\ exists i, kv.1 = "local_conditional_card_state_" ++ i.

(** The loader delivers helpers that can create elements. *)
Definition loaderCreates (loader : LoadCardHelpers) : bool :=
  match loader with
  | LoaderResolves (Some (mkHelpers (Some _))) => true
  | _ => false
  end.

(** The element created with a rebuild listener is the one cached under
    the listener's key. *)
Definition listeners_cached (w : World) : Prop :=
  forall r key c, rebuildListeners (env w) !! r = Some (key, c) ->
                  exists el, cardCache (this w) !! key = Some el
                             /\ Element.ref el = r.

(** The current child, the handle of the card and the handles of the
    elements. *)
Definition hassView (w : World)
  : option Element.t * option HomeAssistant * gmap nat HomeAssistant :=
  (card (this w), _hass (this w), elementHass (env w)).

(** The current child carries the handle of the card. *)
Definition hass_ok (w : World) : Prop :=
  forall el h, card (this w) = Some el -> _hass (this w) = Some h ->
               elementHass (env w) !! Element.ref el = Some h.

(** What [_computeVisibility] reads besides [show]. *)
Definition visInputs (w : World) : bool * option Config.t * option Element.t :=
  (preview (this w), config (this w), card (this w)).

(** The text [`${b}`] of a boolean. *)
Definition boolText (b : bool) : string := if b then "true" else "false".

(** The configuration [{}] of a card: no [type], no members. *)
Definition emptyCard : CardConfig.t := CardConfig.mk None ∅ (Some "{}").

(** [getStubConfig], lines 29-35; [DEFAULT_ID] is a constant of [./const]
    and is taken as a parameter. *)
Definition getStubConfig (DEFAULT_ID : string) : Config.t :=
  Config.mk DEFAULT_ID SHOW (Some emptyCard) None None.

(** *** Settled runs *)











(** *** Proof steps *)

Ltac destruct_world w :=
  let t := fresh "t" in
  let n := fresh "n" in
  destruct w as [t n]; destruct t; destruct n.

Ltac calm_fields w :=
  split; [destruct_world w; reflexivity
         |exists []; rewrite app_nil_r; split; [destruct_world w; reflexivity|auto]].

(** * Properties *)

(** ** Effective visibility *)

Lemma computeVisibility_truthy (w : World) :
  truthy (_computeVisibility w)
  = (preview (this w) && negb (hide_in_preview w))
    || show (this w) || currentIsError w.
Proof.
  unfold _computeVisibility, currentIsError.
  destruct (preview (this w) && negb (hide_in_preview w)); [reflexivity|].
  destruct (show (this w)); [reflexivity|].
  destruct (card (this w)) as [el|]; simpl; [|reflexivity].
  apply orb_diag.
Qed.

Lemma computeVisibility_true_iff_truthy (w : World) :
  _computeVisibility w = VBool true <-> truthy (_computeVisibility w) = true.
Proof.
  destruct (_computeVisibility w) as [[|]|]; simpl; split; congruence.
Qed.

(** C1: [_computeVisibility] returns [true] exactly when the card is
    previewed and not hidden in preview, or [show] is set, or the current
    child is the error card.  In particular it returns [true] for every
    value of [show] when [preview] is on and [hide_in_preview] is unset or
    false (or no configuration is set), and whenever the current child is
    a [hui-error-card], whatever the other fields are. *)
Theorem computeVisibility_spec (w : World) :
  (_computeVisibility w = VBool true <->
     (preview (this w) = true /\ hide_in_preview w = false)
     \/ show (this w) = true
     \/ currentIsError w = true)
  /\ (forall i d cd ps,
        _computeVisibility
          (set_preview true (set_config (Some (Config.mk i d cd ps None)) w))
        = VBool true
        /\ _computeVisibility
             (set_preview true
                (set_config (Some (Config.mk i d cd ps (Some false))) w))
           = VBool true)
  /\ _computeVisibility (set_preview true (set_config None w)) = VBool true
  /\ (forall r size,
        _computeVisibility
          (set_card (Some (Element.mk r "hui-error-card" size)) w)
        = VBool true).
Proof.
  split; [|split; [|split]].
  - rewrite computeVisibility_true_iff_truthy, computeVisibility_truthy.
    rewrite !orb_true_iff, andb_true_iff, negb_true_iff. tauto.
  - intros i d cd ps. destruct_world w. split; reflexivity.
  - destruct_world w. reflexivity.
  - intros r size. destruct_world w. unfold _computeVisibility. simpl.
    destruct (preview0 && _); [reflexivity|]. destruct show0; reflexivity.
Qed.

(** ** Size reporting *)

(** C9: [getCardSize] is 0 whenever the card is not effectively visible,
    whatever the child reports; when it is visible, the result is the
    child's own [getCardSize] if it has one and the call returns, and 1 if
    the child has no such method, if there is no child yet, or if the call
    throws. *)
Theorem getCardSize_spec (w : World) :
  (truthy (_computeVisibility w) = false -> getCardSize w = 0%Z)
  /\ (truthy (_computeVisibility w) = true ->
      (card (this w) = None -> getCardSize w = 1%Z)
      /\ (forall el, card (this w) = Some el ->
            (forall n, Element.getCardSize el = Some (SizeReturns n) ->
                       getCardSize w = n)
            /\ (Element.getCardSize el = None -> getCardSize w = 1%Z)
            /\ (Element.getCardSize el = Some SizeThrows ->
                getCardSize w = 1%Z))).
Proof.
  unfold getCardSize. split; intros Hv; rewrite Hv; simpl; [reflexivity|].
  split.
  - intros ->. reflexivity.
  - intros el ->. repeat split.
    + intros n ->. reflexivity.
    + intros ->. reflexivity.
    + intros ->. reflexivity.
Qed.

(** A hidden card whose child reports 7, and shown cards with a child that
    reports 7, with one that has no [getCardSize], with one whose
    [getCardSize] throws, and with no child. *)
Lemma getCardSize_spec_witness :
  getCardSize (withChild false (Some (Element.mk 0 "hui-x" (Some (SizeReturns 7))))) = 0%Z
  /\ getCardSize (withChild true (Some (Element.mk 0 "hui-x" (Some (SizeReturns 7))))) = 7%Z
  /\ getCardSize (withChild true (Some (Element.mk 0 "hui-x" None))) = 1%Z
  /\ getCardSize (withChild true (Some (Element.mk 0 "hui-x" (Some SizeThrows)))) = 1%Z
  /\ getCardSize (withChild true None) = 1%Z.
Proof.
  pose (el := fun size => Some (Element.mk 0 "hui-x" size)).
  split; [|split; [|split; [|split]]].
  - exact (proj1 (getCardSize_spec (withChild false (el (Some (SizeReturns 7)))))
             eq_refl).
  - exact (proj1 (proj2 (proj2 (getCardSize_spec
                                  (withChild true (el (Some (SizeReturns 7)))))
                           eq_refl) _ eq_refl) 7%Z eq_refl).
  - exact (proj1 (proj2 (proj2 (proj2 (getCardSize_spec (withChild true (el None)))
                                  eq_refl) _ eq_refl)) eq_refl).
  - exact (proj2 (proj2 (proj2 (proj2 (getCardSize_spec
                                         (withChild true (el (Some SizeThrows))))
                                  eq_refl) _ eq_refl)) eq_refl).
  - exact (proj1 (proj2 (getCardSize_spec (withChild true None)) eq_refl) eq_refl).
Defined.

(** ** Configuration *)

(** [setConfig] never returns normally without a configuration or without
    a [card] member. *)
Lemma setConfig_throws (c : option Config.t) (w : World) :
  match c with
  | None => True
  | Some c => Config.card c = None
  end ->
  exists e, fst (setConfig c w) = Thrown e.
Proof.
  destruct c as [c|]; simpl; [intros ->|]; eauto.
Qed.

(** C5 does not hold as stated: with a configuration whose [card] is
    missing, [setConfig] throws only after it has stored the configuration
    and reset [show] from [default]. *)
Lemma setConfig_partial_state_counterexample :
  let c := Config.mk "a" "hide" None None None in
  let w := boot LoaderMissing None in
  fst (setConfig (Some c) w) = Thrown "No card configured"
  /\ config (this w) = None
  /\ config (this (snd (setConfig (Some c) w))) = Some c
  /\ show (this w) = true
  /\ show (this (snd (setConfig (Some c) w))) = false.
Proof. repeat split. Qed.

(** C5 (amended): [setConfig] throws whenever the configuration is missing
    or its [card] is missing.  Without a configuration nothing changes.
    With a configuration that lacks [card], the configuration is stored and
    [show] is reset from its [default] before the failure, and nothing
    else changes: no deferred work is queued. *)
Theorem setConfig_failure (w : World) :
  setConfig None w = (Thrown "Missing configuration", w)
  /\ forall i d ps hp,
       let c := Config.mk i d None ps hp in
       setConfig (Some c) w
       = (Thrown "No card configured",
          set_show (String.eqb d "show") (set_config (Some c) w)).
Proof. split; [reflexivity|]. intros. reflexivity. Qed.

(** ** Restoring the persisted state *)

Lemma restoreState_stored (c : Config.t) (s : string) store (w : World) :
  let w1 := stored c s store w in
  restoreState c w1
  = if eqb (String.eqb s "true") (show (this w))
    then w1
    else _computeAndSetVisible (set_show (String.eqb s "true") w1).
Proof.
  destruct_world w. unfold restoreState. simpl.
  rewrite lookup_insert_eq. destruct (eqb _ _); reflexivity.
Qed.

Lemma show_computeAndSetVisible (w : World) :
  show (this (_computeAndSetVisible w)) = show (this w).
Proof.
  destruct_world w. unfold _computeAndSetVisible. simpl.
  destruct (strict_ne _ _); [|reflexivity].
  unfold persist_state. simpl. destruct config0 as [c|]; [|reflexivity].
  destruct (or_false _); reflexivity.
Qed.

(** C10: when the restore finds a stored string, [show] ends up [true]
    only if the string is exactly ["true"], and [false] for every other
    string (["TRUE"], ["1"], ["yes"], the empty string, ...); [show] is
    assigned, and the visibility recomputed, only when the parsed value
    differs from the current [show]: otherwise the restore changes
    nothing. *)
Theorem restoreState_parses_exactly_true (c : Config.t) (s : string)
    (store : gmap string string) (w : World) :
  let w1 := stored c s store w in
  show (this (restoreState c w1)) = String.eqb s "true"
  /\ (show (this (restoreState c w1)) = true <-> s = "true")
  /\ (if eqb (String.eqb s "true") (show (this w))
      then restoreState c w1 = w1
      else restoreState c w1
           = _computeAndSetVisible (set_show (String.eqb s "true") w1))
  /\ String.eqb "TRUE" "true" = false
  /\ String.eqb "1" "true" = false
  /\ String.eqb "yes" "true" = false
  /\ String.eqb "" "true" = false.
Proof.
  intros w1.
  assert (Hshow : show (this (restoreState c w1)) = String.eqb s "true").
  { subst w1. rewrite restoreState_stored.
    destruct (eqb _ _) eqn:E.
    - apply eqb_prop in E. destruct_world w. simpl in *. congruence.
    - rewrite show_computeAndSetVisible. destruct_world w. reflexivity. }
  split; [exact Hshow|]. split.
  - rewrite Hshow. apply String.eqb_eq.
  - split; [|repeat split]. subst w1. rewrite restoreState_stored.
    destruct (eqb _ _); reflexivity.
Qed.

(** ** Reconciliation *)

Lemma computeAndSetVisible_changed (w : World) :
  strict_ne (visible (this w)) (_computeVisibility w) = true ->
  _computeAndSetVisible w
  = dispatchEvent "card-visibility-changed"
      ((if persist_state w then queueMicrotask PersistState else fun w => w)
         (set_visible (_computeVisibility w) w)).
Proof.
  intros H. destruct_world w. unfold _computeAndSetVisible. simpl in *.
  rewrite H. unfold persist_state. simpl.
  destruct config0 as [c|]; [|reflexivity]. destruct (or_false _); reflexivity.
Qed.

Lemma computeAndSetVisible_unchanged (w : World) :
  strict_ne (visible (this w)) (_computeVisibility w) = false ->
  _computeAndSetVisible w = w.
Proof.
  intros H. destruct_world w. unfold _computeAndSetVisible. simpl in *.
  rewrite H.
  destruct visible0 as [x|], (_computeVisibility _) as [y|]; simpl in H;
    try discriminate; [|reflexivity].
  destruct x, y; simpl in H; try discriminate; reflexivity.
Qed.

(** The write queued by a reconciliation stores [show], under the key of
    the current configuration. *)
Lemma persistState_writes_show (c : Config.t) store (w : World) :
  config (this w) = Some c ->
  localStorage (env w) = Some store ->
  let key := "local_conditional_card_state_" ++ Config.id c in
  let value := if show (this w) then "true" else "false" in
  storageWrites (env (persistState w)) = (key, value) :: storageWrites (env w)
  /\ localStorage (env (persistState w)) = Some (<[key := value]> store).
Proof.
  intros Hc Hs. destruct_world w. simpl in *. subst.
  unfold persistState. simpl. split; reflexivity.
Qed.

(** C7: the reconciliation fires although the visible boolean did not
    change.  A fresh card configured with [{id: "a", default: "hide",
    card: {type: "x"}, persist_state: true}] has no child yet, so when
    [updated] reconciles, [_computeVisibility] yields [undefined]; [visible]
    was [false], the test [prev !== this.visible] succeeds, one notification
    is dispatched and a storage write is queued, while the card was hidden
    before and is hidden after.  The same happens on the way back, from [undefined] to
    [false], once the child exists. *)
Theorem computeAndSetVisible_fires_without_change :
  let c := Config.mk "a" "hide" (Some xCard) (Some true) None in
  let w := snd (setConfig (Some c) (boot xHost (Some ∅))) in
  let w' := updated ["config"; "show"] w in
  let w'' := runMicrotasks 8 w' in
  (visible (this w) = VBool false /\ visible (this w') = VUndefined
   /\ truthy (visible (this w)) = truthy (visible (this w')))
  /\ dispatched (env w) = []
  /\ dispatched (env w') = ["card-visibility-changed"]
  /\ microtasks (env w') = (microtasks (env w) ++ [PersistState])%list
  /\ (card (this w'') = Some (Element.mk 0 "hui-x" None)
      /\ visible (this w'') = VBool false
      /\ dispatched (env w'')
         = ["card-visibility-changed"; "card-visibility-changed"]
      /\ storageWrites (env w'')
         = [("local_conditional_card_state_a", "false");
            ("local_conditional_card_state_a", "false")]
      /\ microtasks (env w'') = []).
Proof. vm_compute. repeat split. Qed.

(** When the visible value does change, the reconciliation dispatches
    exactly one notification and, with persistence on, queues exactly one
    write; when the value is identical it does nothing. *)
Lemma computeAndSetVisible_effects (w : World) :
  let w' := _computeAndSetVisible w in
  if strict_ne (visible (this w)) (_computeVisibility w)
  then dispatched (env w') = "card-visibility-changed" :: dispatched (env w)
       /\ microtasks (env w')
          = (microtasks (env w)
             ++ (if persist_state w then [PersistState] else []))%list
       /\ storageWrites (env w') = storageWrites (env w)
  else w' = w.
Proof.
  simpl. destruct (strict_ne _ _) eqn:E.
  - rewrite computeAndSetVisible_changed by exact E.
    destruct_world w. unfold persist_state. simpl.
    destruct config0 as [c|]; simpl; [destruct (or_false _)|]; simpl;
      rewrite ?app_nil_r; auto.
  - apply computeAndSetVisible_unchanged, E.
Qed.

(** A hidden card without a child: [_computeVisibility] yields
    [undefined], which [!==] tells apart from the [false] in [visible]. *)
Lemma computeAndSetVisible_without_child (w : World) :
  card (this w) = None -> show (this w) = false -> preview (this w) = false ->
  visible (this w) = VBool false ->
  let w' := _computeAndSetVisible w in
  visible (this w') = VUndefined
  /\ dispatched (env w') = "card-visibility-changed" :: dispatched (env w)
  /\ microtasks (env w')
     = (microtasks (env w) ++ (if persist_state w then [PersistState] else []))%list.
Proof.
  intros Hc Hs Hp Hv. simpl.
  assert (Hu : _computeVisibility w = VUndefined).
  { unfold _computeVisibility. rewrite Hc, Hs, Hp. reflexivity. }
  pose proof (computeAndSetVisible_effects w) as He. simpl in He.
  rewrite Hu, Hv in He. simpl in He. destruct He as (Hd & Hm & _).
  split; [|split; assumption].
  rewrite computeAndSetVisible_changed by (rewrite Hu, Hv; reflexivity).
  rewrite Hu. destruct_world w. unfold persist_state. simpl.
  destruct config0 as [c|]; [destruct (or_false _)|]; reflexivity.
Qed.

(** ** The persisted-value load and the storage *)

(** C6 does not hold as stated: the load does trigger a storage write.
    With [{id: "a", default: "hide", persist_state: true}] and ["true"]
    stored, the restore closure sets [show], the reconciliation it calls
    sees [visible] go from [false] to [true] and queues the persisting
    closure, which calls [localStorage.setItem]. *)
Lemma restoreState_write_counterexample :
  let c := Config.mk "a" "hide" (Some xCard) (Some true) None in
  let w0 := boot xHost (Some {[ "local_conditional_card_state_a" := "true" ]}) in
  let w1 := snd (setConfig (Some c) w0) in
  microtasks (env w1) = [SetConfigCreate xCard; RestoreState c]
  /\ microtasks (env (runMicrotasks 1 w1))
     = [RestoreState c; CreateCardStart xCard FromSetConfig]
  /\ show (this (runMicrotasks 2 w1)) = true
  /\ microtasks (env (runMicrotasks 2 w1))
     = [CreateCardStart xCard FromSetConfig; PersistState]
  /\ storageWrites (env (runMicrotasks 2 w1)) = []
  /\ storageWrites (env (runMicrotasks 4 w1))
     = [("local_conditional_card_state_a", "true")].
Proof. vm_compute. repeat split. Qed.

(** C6 (amended): with [persist_state] on, [setConfig] queues the restore
    closure once.  When a value is stored, the closure sets [show] to the
    parsed value and writes nothing itself; it queues a persistence write
    exactly when it changed [show] and the reconciliation saw the visible
    value change, and that write stores the restored [show] under the same
    key. *)
Theorem restoreState_persistence (i d : string) (cc : CardConfig.t)
    (hp : option bool) (s : string) (store : gmap string string) (w : World) :
  let c := Config.mk i d (Some cc) (Some true) hp in
  let w0 := snd (setConfig (Some c) w) in
  let w1 := stored c s store w0 in
  let parsed := String.eqb s "true" in
  let w2 := restoreState c w1 in
  microtasks (env w0)
  = (microtasks (env w) ++ [SetConfigCreate cc; RestoreState c])%list
  /\ show (this w2) = parsed
  /\ storageWrites (env w2) = storageWrites (env w1)
  /\ microtasks (env w2)
     = (microtasks (env w1)
        ++ (if negb (eqb parsed (show (this w1)))
               && strict_ne (visible (this w1))
                    (_computeVisibility (set_show parsed w1))
            then [PersistState] else []))%list
  /\ storageWrites (env (persistState w2))
     = ("local_conditional_card_state_" ++ i, if parsed then "true" else "false")
       :: storageWrites (env w1).
Proof.
  intros c w0 w1 parsed w2.
  assert (Hw2 : w2 = if eqb parsed (show (this w0)) then w1
                     else _computeAndSetVisible (set_show parsed w1)).
  { subst w2 w1 parsed. apply restoreState_stored. }
  assert (Hshow1 : show (this w1) = show (this w0)).
  { subst w1. destruct_world w0. reflexivity. }
  assert (Hshow : show (this w2) = parsed).
  { rewrite Hw2. destruct (eqb _ _) eqn:E.
    - apply eqb_prop in E. congruence.
    - rewrite show_computeAndSetVisible. subst w1. destruct_world w0. reflexivity. }
  split; [|split; [exact Hshow|]].
  { subst w0 c. destruct_world w. simpl. unfold queueMicrotask. simpl.
    rewrite <- app_assoc. reflexivity. }
  assert (Hcfg : config (this w2) = Some c /\ localStorage (env w2) = localStorage (env w1)
                 /\ storageWrites (env w2) = storageWrites (env w1)
                 /\ microtasks (env w2)
                    = (microtasks (env w1)
                       ++ (if negb (eqb parsed (show (this w1)))
                              && strict_ne (visible (this w1))
                                   (_computeVisibility (set_show parsed w1))
                           then [PersistState] else []))%list).
  { rewrite Hw2, Hshow1. destruct (eqb _ _); simpl.
    - rewrite app_nil_r. subst w1 w0 c. destruct_world w. repeat split.
    - pose proof (computeAndSetVisible_effects (set_show parsed w1)) as He.
      simpl in He.
      assert (Hv : visible (this (set_show parsed w1)) = visible (this w1)).
      { subst w1. destruct_world w0. reflexivity. }
      assert (Hp : persist_state (set_show parsed w1) = true).
      { subst w1 w0 c. destruct_world w. reflexivity. }
      rewrite Hv, Hp in He.
      assert (Hc : config (this (_computeAndSetVisible (set_show parsed w1)))
                   = Some c
                   /\ localStorage (env (_computeAndSetVisible (set_show parsed w1)))
                      = localStorage (env w1)).
      { destruct (strict_ne (visible (this w1)) _) eqn:E.
        - rewrite computeAndSetVisible_changed by (rewrite Hv; exact E).
          rewrite Hp. subst w1 w0 c. destruct_world w. split; reflexivity.
        - rewrite computeAndSetVisible_unchanged by (rewrite Hv; exact E).
          subst w1 w0 c. destruct_world w. split; reflexivity. }
      destruct Hc as [Hc1 Hc2].
      destruct (strict_ne (visible (this w1)) _).
      + destruct He as (_ & He2 & He3). rewrite He2, He3.
        subst w1 w0 c. destruct_world w. repeat split; assumption.
      + rewrite He, app_nil_r. subst w1 w0 c. destruct_world w.
        repeat split. }
  destruct Hcfg as (Hc & Hls & Hsw & Hmt).
  split; [exact Hsw|]. split; [exact Hmt|].
  assert (Hst : localStorage (env w1)
                = Some (<["local_conditional_card_state_" ++ i := s]> store)).
  { subst w1 w0 c. destruct_world w. reflexivity. }
  rewrite Hst in Hls.
  destruct (persistState_writes_show c _ w2 Hc Hls) as [Hw _].
  rewrite Hw, Hshow, Hsw. reflexivity.
Qed.

(** ** Decoding a broadcast payload *)

Lemma includes_elem_of (c : Config.t) (l : list IdEntry) :
  includes (Some c) l = true <-> IdString (Config.id c) ∈ l.
Proof.
  simpl. rewrite existsb_exists. split.
  - intros (entry & Hin & Heq). destruct entry as [s|r]; [|discriminate].
    apply String.eqb_eq in Heq. subst s. apply list_elem_of_In, Hin.
  - intros Hin. exists (IdString (Config.id c)). split.
    + apply list_elem_of_In, Hin.
    + apply String.eqb_refl.
Qed.




Lemma applyAction_none (shown : bool) : applyAction (AString "none") shown = shown.
Proof. reflexivity. Qed.

Lemma applyAction_set (shown : bool) : applyAction (AString "set") shown = shown.
Proof. reflexivity. Qed.

(** What a delivery does to [show] when a payload is buffered. *)
Lemma processQueued_show (d : LovelaceDomDetail) (w : World) :
  _lastEvent (this w) = Some (LovelaceDomEvent d) ->
  show (this (_processQueuedLovelaceEvent w))
  = applyAction (effectiveAction (config (this w)) d) (show (this w)).
Proof.
  intros H. unfold _processQueuedLovelaceEvent. rewrite H.
  rewrite show_computeAndSetVisible. destruct_world w. reflexivity.
Qed.




(** ** The event coalescer *)

Lemma coalescer_computeAndSetVisible (w : World) :
  coalescer (_computeAndSetVisible w) = coalescer w.
Proof.
  destruct_world w. unfold _computeAndSetVisible. simpl.
  destruct (strict_ne _ _); [|reflexivity].
  unfold persist_state. simpl. destruct config0 as [c|]; [|reflexivity].
  destruct (or_false _); reflexivity.
Qed.

Lemma coalescer_ensureHelpers (w : World) :
  coalescer (_ensureHelpers w) = coalescer w.
Proof.
  destruct_world w. unfold _ensureHelpers. simpl.
  destruct cardHelpers0; [reflexivity|]. destruct loadCardHelpers0; reflexivity.
Qed.

Lemma coalescer_queueMicrotask (t : Task) (w : World) :
  coalescer (queueMicrotask t w) = coalescer w.
Proof. destruct_world w. reflexivity. Qed.

Lemma coalescer_bindHass (el : Element.t) (w : World) :
  coalescer (bindHass el w) = coalescer w.
Proof. destruct_world w. unfold bindHass. simpl. destruct _hass0; reflexivity. Qed.

Lemma coalescer_createCard_body (c : CardConfig.t) (w : World) :
  coalescer (snd (_createCard_body c w)) = coalescer w.
Proof.
  destruct_world w. unfold _createCard_body. simpl.
  destruct (cardCache0 !! _); [reflexivity|].
  destruct cardHelpers0 as [[[create|]]|]; try reflexivity.
  destruct (create c) as [name size]. simpl.
  unfold bindHass. simpl. destruct _hass0; reflexivity.
Qed.

Lemma coalescer_restoreState (c : Config.t) (w : World) :
  coalescer (restoreState c w) = coalescer w.
Proof.
  unfold restoreState. destruct (localStorage (env w)); [|reflexivity].
  simpl. destruct (_ !! _); [|reflexivity].
  destruct (negb _); [|reflexivity].
  rewrite coalescer_computeAndSetVisible. destruct_world w. reflexivity.
Qed.

Lemma coalescer_persistState (w : World) :
  coalescer (persistState w) = coalescer w.
Proof.
  unfold persistState. destruct (localStorage (env w)); [|reflexivity].
  destruct (_getStorageKey None w); [|reflexivity].
  destruct_world w. reflexivity.
Qed.

Lemma coalescer_runTask (t : Task) (w : World) :
  coalescer (runTask t w) = coalescer w.
Proof.
  destruct t as [c|c k|key el c|c k|el k| |c|]; simpl.
  - rewrite coalescer_queueMicrotask. apply coalescer_ensureHelpers.
  - rewrite coalescer_queueMicrotask. apply coalescer_ensureHelpers.
  - rewrite coalescer_queueMicrotask. apply coalescer_ensureHelpers.
  - pose proof (coalescer_createCard_body c w) as H.
    destruct (_createCard_body c w) as [[el|e] w']; simpl in H.
    + rewrite coalescer_queueMicrotask. exact H.
    + exact H.
  - destruct k as [k|key el0].
    + assert (H : coalescer (createCard_resume el w) = coalescer w).
      { unfold createCard_resume. rewrite coalescer_computeAndSetVisible,
          coalescer_bindHass. destruct_world w. reflexivity. }
      destruct k; [rewrite coalescer_queueMicrotask|]; exact H.
    + unfold rebuild_resume. rewrite coalescer_computeAndSetVisible,
        coalescer_bindHass. destruct_world w. reflexivity.
  - apply coalescer_computeAndSetVisible.
  - apply coalescer_restoreState.
  - apply coalescer_persistState.
Qed.

Lemma coalesced_coalescer (w w' : World) :
  coalescer w' = coalescer w -> coalesced w -> coalesced w'.
Proof.
  unfold coalescer, coalesced. intros [= -> -> ->]. auto.
Qed.

(** A signal overwrites the buffer and schedules a delivery only when none
    is pending. *)
Lemma handle_coalescer (e : Event) (w : World) :
  coalescer (_handleLovelaceDomEvent e w)
  = (true, Some e,
     if _pendingEvent (this w) then frames (env w) else S (frames (env w))).
Proof.
  destruct_world w. unfold _handleLovelaceDomEvent. simpl.
  destruct _pendingEvent0; reflexivity.
Qed.

(** A delivery clears the flag and empties the buffer; it schedules
    nothing. *)
Lemma process_coalescer (w : World) :
  coalescer (_processQueuedLovelaceEvent w) = (false, None, frames (env w)).
Proof.
  unfold _processQueuedLovelaceEvent.
  destruct (_lastEvent (this w)) as [[d| |]|];
    rewrite ?coalescer_computeAndSetVisible; destruct_world w; reflexivity.
Qed.

(** At a frame boundary under the invariant: the one scheduled delivery
    runs, or there is none and nothing happens. *)
Lemma animationFrame_coalesced (w : World) :
  coalesced w ->
  animationFrame w
  = if _pendingEvent (this w)
    then _processQueuedLovelaceEvent (set_frames 0 w)
    else w.
Proof.
  intros [Hf _]. unfold animationFrame. rewrite Hf.
  destruct (_pendingEvent (this w)); simpl; [reflexivity|].
  destruct_world w. simpl in *. subst. reflexivity.
Qed.

Lemma coalesced_perform (op : Op) (w : World) :
  coalesced w -> coalesced (perform w op).
Proof.
  intros H. destruct op as [c|b|h|changed| | |c|el|e| |]; simpl.
  - apply (coalesced_coalescer w); [|exact H].
    destruct c as [c|]; [|reflexivity]. simpl.
    destruct (Config.card c); simpl.
    + destruct (or_false _); rewrite ?coalescer_queueMicrotask;
        destruct_world w; reflexivity.
    + destruct_world w; reflexivity.
  - apply (coalesced_coalescer w); [|exact H]. destruct_world w; reflexivity.
  - apply (coalesced_coalescer w); [|exact H]. unfold hass_set.
    destruct (config (this w)); [|reflexivity]. destruct h; [|reflexivity].
    destruct_world w. simpl. destruct card0; reflexivity.
  - apply (coalesced_coalescer w); [|exact H]. unfold updated.
    destruct (_ || _); [apply coalescer_computeAndSetVisible|reflexivity].
  - apply (coalesced_coalescer w); [|exact H]. destruct_world w; reflexivity.
  - apply (coalesced_coalescer w); [|exact H]. destruct_world w; reflexivity.
  - apply (coalesced_coalescer w); [|exact H]. apply coalescer_runTask.
  - apply (coalesced_coalescer w); [|exact H]. unfold ll_rebuild.
    destruct (_ !! _) as [[key c]|]; [apply coalescer_queueMicrotask|reflexivity].
  - unfold documentEvent. destruct (listening (env w)); [|exact H].
    pose proof (handle_coalescer e w) as He. unfold coalescer in He.
    injection He as Hp Hl Hf. unfold coalesced. rewrite Hp, Hl, Hf.
    destruct H as [H1 _]. rewrite H1.
    destruct (_pendingEvent (this w)); split; eauto.
  - rewrite (animationFrame_coalesced w H).
    destruct (_pendingEvent (this w)) eqn:Ep; [|exact H].
    pose proof (process_coalescer (set_frames 0 w)) as He. unfold coalescer in He.
    injection He as Hp Hl Hf. unfold coalesced. rewrite Hp, Hl, Hf.
    destruct_world w. split; reflexivity.
  - unfold runMicrotask. destruct (microtasks (env w)) as [|t rest] eqn:E;
      [exact H|].
    apply (coalesced_coalescer w); [|exact H]. rewrite coalescer_runTask.
    destruct_world w. reflexivity.
Qed.

Lemma coalesced_boot loader storage : coalesced (boot loader storage).
Proof. split; reflexivity. Qed.

Lemma coalesced_reachable loader storage (ops : list Op) :
  coalesced (foldl perform (boot loader storage) ops).
Proof.
  induction ops as [|op ops IH] using rev_ind; [apply coalesced_boot|].
  rewrite foldl_app. simpl. apply coalesced_perform, IH.
Qed.

(** C3: in every state a fresh card can reach, at most one delivery is
    scheduled, and one is scheduled exactly while the pending flag is set.
    A raw signal overwrites the one-slot buffer with itself and schedules
    a delivery only if none is pending.  At the frame boundary the pending
    delivery, if any, empties the buffer, clears the flag and decodes the
    buffered signal once, applying its action to [show]; afterwards nothing
    is scheduled. *)
Theorem coalescer_invariant (loader : LoadCardHelpers)
    (storage : option (gmap string string)) (ops : list Op) :
  let w := foldl perform (boot loader storage) ops in
  frames (env w) <= 1
  /\ (frames (env w) = 1 <-> _pendingEvent (this w) = true)
  /\ (forall e,
        let w' := _handleLovelaceDomEvent e w in
        _lastEvent (this w') = Some e
        /\ _pendingEvent (this w') = true
        /\ frames (env w') = 1
        /\ frames (env w')
           = if _pendingEvent (this w) then frames (env w) else S (frames (env w)))
  /\ (let w' := animationFrame w in
      frames (env w') = 0
      /\ _pendingEvent (this w') = false
      /\ _lastEvent (this w') = None
      /\ if _pendingEvent (this w)
         then exists e,
             _lastEvent (this w) = Some e
             /\ w' = _processQueuedLovelaceEvent (set_frames 0 w)
             /\ forall d, e = LovelaceDomEvent d ->
                  show (this w')
                  = applyAction (effectiveAction (config (this w)) d) (show (this w))
         else w' = w).
Proof.
  intros w. pose proof (coalesced_reachable loader storage ops) as H.
  fold w in H. destruct H as [Hf Hb]. split; [|split; [|split]].
  - rewrite Hf. destruct (_pendingEvent (this w)); lia.
  - rewrite Hf. destruct (_pendingEvent (this w)); split; congruence.
  - intros e w'. pose proof (handle_coalescer e w) as He. fold w' in He.
    unfold coalescer in He. injection He as Hp Hl Hn.
    repeat split; try assumption.
    rewrite Hn, Hf. destruct (_pendingEvent (this w)); reflexivity.
  - simpl. rewrite (animationFrame_coalesced w (conj Hf Hb)).
    destruct (_pendingEvent (this w)) eqn:Ep.
    + pose proof (process_coalescer (set_frames 0 w)) as He.
      unfold coalescer in He. injection He as Hp Hl Hn.
      repeat split; try assumption.
      { rewrite Hn. destruct_world w. reflexivity. }
      destruct Hb as [e He]. exists e. repeat split; [exact He|].
      intros d ->. rewrite (processQueued_show d).
      * destruct_world w. reflexivity.
      * destruct_world w. exact He.
    + rewrite Hf in *. repeat split; assumption.
Qed.

(** ** Sequences of signals *)

Lemma targeted_applyAction (c : Config.t) (s : Signal) (l : list IdEntry)
    (shown : bool) :
  IdString (Config.id c) ∈ l ->
  applyAction (effectiveAction (Some c) (mkDetail l (signalName s))) shown
  = applySignal shown s.
Proof.
  intros Hin. apply includes_elem_of in Hin. unfold effectiveAction.
  simpl ids. rewrite Hin. destruct s; reflexivity.
Qed.

Lemma handle_idle (e : Event) (w : World) :
  idle w -> _handleLovelaceDomEvent e w = buffered e w.
Proof.
  unfold idle, coalescer. destruct_world w. simpl. intros [= -> -> ->].
  reflexivity.
Qed.

Lemma handle_buffered (e e' : Event) (w : World) :
  _handleLovelaceDomEvent e' (buffered e w) = buffered e' w.
Proof. destruct_world w. reflexivity. Qed.

Lemma last_cons {A} (a d : A) (l : list A) :
  List.last (a :: l) d = List.last l a.
Proof.
  revert a d. induction l as [|b l IH]; intros a d; [reflexivity|].
  change (List.last (a :: b :: l) d) with (List.last (b :: l) d).
  rewrite !IH. reflexivity.
Qed.

Lemma burst_buffered (e : Event) (es : list Event) (w : World) :
  idle w ->
  foldl (fun w e => _handleLovelaceDomEvent e w) w (e :: es)
  = buffered (List.last es e) w.
Proof.
  intros H. simpl foldl. rewrite (handle_idle e w H). clear H.
  revert e. induction es as [|e' es IH]; intros e; [reflexivity|].
  simpl foldl. rewrite handle_buffered, IH, last_cons. reflexivity.
Qed.

(** One frame from an idle card: an empty burst changes nothing, a
    non-empty one delivers its last event only. *)
Lemma frame_idle (burst : list Event) (w : World) :
  idle w ->
  frame burst w
  = match burst with
    | [] => w
    | e :: es => _processQueuedLovelaceEvent (set_lastEvent (Some (List.last es e)) w)
    end.
Proof.
  intros H. unfold frame. destruct burst as [|e es].
  - simpl. unfold idle, coalescer in H. destruct_world w. simpl in *.
    injection H as -> -> ->. reflexivity.
  - rewrite (burst_buffered e es w H). unfold idle, coalescer in H.
    destruct_world w. simpl in *. injection H as -> -> ->. reflexivity.
Qed.

Lemma process_config (w : World) :
  config (this (_processQueuedLovelaceEvent w)) = config (this w).
Proof.
  unfold _processQueuedLovelaceEvent.
  assert (Hc : forall w, config (this (_computeAndSetVisible w)) = config (this w)).
  { clear. intros w. destruct_world w. unfold _computeAndSetVisible. simpl.
    destruct (strict_ne _ _); [|reflexivity]. unfold persist_state. simpl.
    destruct config0 as [c|]; [|reflexivity]. destruct (or_false _); reflexivity. }
  destruct (_lastEvent (this w)) as [[d| |]|]; rewrite ?Hc;
    destruct_world w; reflexivity.
Qed.

Lemma frame_targeted (c : Config.t) (ss : list Signal) (es : list Event)
    (w : World) :
  Forall2 (targeted c) ss es -> idle w -> config (this w) = Some c ->
  let w' := frame es w in
  idle w' /\ config (this w') = Some c
  /\ show (this w')
     = match last ss with
       | Some s => applySignal (show (this w)) s
       | None => show (this w)
       end.
Proof.
  intros HF Hi Hc. simpl. rewrite (frame_idle es w Hi).
  destruct HF as [|s e ss es Hse HF]; [auto|].
  assert (Hlast : targeted c (List.last ss s) (List.last es e)
                  /\ last (s :: ss) = Some (List.last ss s)).
  { clear -Hse HF. revert s e Hse.
    induction HF as [|s' e' ss es Hse' HF IH]; intros s e Hse; [auto|].
    destruct (IH s' e' Hse') as [H1 H2]. rewrite !last_cons. split.
    - exact H1.
    - exact H2. }
  destruct Hlast as [(l & He & Hin) Hl]. rewrite Hl, He.
  set (w1 := set_lastEvent _ w).
  assert (H1 : coalescer (_processQueuedLovelaceEvent w1) = (false, None, 0)).
  { rewrite process_coalescer. subst w1. unfold idle, coalescer in Hi.
    destruct_world w. simpl in *. congruence. }
  assert (H2 : config (this w1) = Some c /\ show (this w1) = show (this w)
               /\ _lastEvent (this w1)
                  = Some (LovelaceDomEvent (mkDetail l (signalName (List.last ss s))))).
  { subst w1. destruct_world w. simpl in *. auto. }
  destruct H2 as (H2 & H3 & H4).
  split; [exact H1|]. split; [rewrite process_config; exact H2|].
  rewrite (processQueued_show _ w1 H4), H2, H3.
  apply targeted_applyAction, Hin.
Qed.

Lemma runFrames_targeted (c : Config.t) (sss : list (list Signal))
    (ess : list (list Event)) :
  Forall2 (Forall2 (targeted c)) sss ess ->
  forall w, idle w -> config (this w) = Some c ->
  show (this (runFrames ess w))
  = foldl applySignal (show (this w)) (omap last sss).
Proof.
  induction 1 as [|ss es sss ess Hse _ IH]; intros w Hi Hc; [reflexivity|].
  destruct (frame_targeted c ss es w Hse Hi Hc) as (Hi' & Hc' & Hs').
  unfold runFrames in *. simpl foldl. rewrite (IH _ Hi' Hc'), Hs'.
  simpl omap. destruct (last ss); reflexivity.
Qed.


Lemma toggleA_targeted : targeted cardA SigToggle toggleA.
Proof. exists [IdString "a"]. split; [reflexivity|]. apply list_elem_of_In. simpl. auto. Qed.


(** ** The widget cache *)

Lemma ensureHelpers_cache (w : World) :
  cardCache (this (_ensureHelpers w)) = cardCache (this w)
  /\ nextRef (env (_ensureHelpers w)) = nextRef (env w)
  /\ (canCreate w -> _ensureHelpers w = w).
Proof.
  destruct_world w. unfold _ensureHelpers, canCreate. simpl.
  destruct cardHelpers0; [auto|].
  destruct loadCardHelpers0; repeat split; intros [create H]; discriminate.
Qed.

(** What the synchronous part of [_createCard] does to the cache. *)
Lemma createCard_body_cache (c : CardConfig.t) (w : World) :
  let key := _cardConfigKey c in
  match _createCard_body c w with
  | (Returned el, w') =>
      cardCache (this w') = <[key := el]> (cardCache (this w))
      /\ cardHelpers (this w') = cardHelpers (this w)
      /\ match cardCache (this w) !! key with
         | Some el0 => el = el0 /\ w' = w
         | None => Element.ref el = nextRef (env w)
                   /\ nextRef (env w') = S (nextRef (env w))
                   /\ canCreate w
         end
  | (Thrown _, w') =>
      cardCache (this w') = cardCache (this w)
      /\ cardHelpers (this w') = cardHelpers (this w)
      /\ cardCache (this w) !! key = None
      /\ nextRef (env w') = S (nextRef (env w))
      /\ ~ canCreate w
  end.
Proof.
  destruct_world w. unfold _createCard_body, canCreate. simpl.
  destruct (cardCache0 !! _cardConfigKey c) as [el0|] eqn:E; simpl.
  - repeat split. symmetry. apply insert_id, E.
  - destruct cardHelpers0 as [[[create|]]|]; simpl.
    + destruct (create c) as [name size] eqn:Ec. simpl.
      unfold bindHass. simpl. destruct _hass0; simpl; eauto 10.
    + repeat split. intros [create H]. discriminate.
    + repeat split. intros [create H]. discriminate.
Qed.

Lemma createCard_body_ok (c : CardConfig.t) (w : World) :
  cache_ok w -> cache_ok (snd (_createCard_body c w)).
Proof.
  intros [Hlt Hinj]. pose proof (createCard_body_cache c w) as H. simpl in H.
  destruct (_createCard_body c w) as [[el|e] w']; simpl.
  - destruct H as (Hc & Hh & H).
    destruct (cardCache (this w) !! _cardConfigKey c) as [el0|] eqn:E.
    + destruct H as [_ ->]. split; assumption.
    + destruct H as (Href & Hn & Hcan).
      assert (Hcan' : canCreate w').
      { destruct Hcan as [create Hcr]. exists create. congruence. }
      unfold cache_ok. rewrite Hc, Hn. split.
      * intros k el' Hk. split; [|exact Hcan'].
        destruct (decide (_cardConfigKey c = k)) as [<-|Hne].
        -- rewrite lookup_insert_eq in Hk. injection Hk as <-. lia.
        -- rewrite lookup_insert_ne in Hk by exact Hne.
           destruct (Hlt _ _ Hk). lia.
      * intros k1 k2 el1 el2 H1 H2 Hr.
        destruct (decide (_cardConfigKey c = k1)) as [<-|Hne1];
          destruct (decide (_cardConfigKey c = k2)) as [<-|Hne2];
          [reflexivity| | |].
        -- rewrite lookup_insert_eq in H1. injection H1 as <-.
           rewrite lookup_insert_ne in H2 by exact Hne2.
           destruct (Hlt _ _ H2). lia.
        -- rewrite lookup_insert_eq in H2. injection H2 as <-.
           rewrite lookup_insert_ne in H1 by exact Hne1.
           destruct (Hlt _ _ H1). lia.
        -- rewrite lookup_insert_ne in H1 by exact Hne1.
           rewrite lookup_insert_ne in H2 by exact Hne2.
           exact (Hinj _ _ _ _ H1 H2 Hr).
  - destruct H as (Hc & Hh & _ & Hn & _). unfold cache_ok. rewrite Hc, Hn. split.
    + intros k el' Hk. destruct (Hlt _ _ Hk) as [Hl [create Hcr]]. split; [lia|].
      exists create. congruence.
    + exact Hinj.
Qed.

Lemma ensureHelpers_ok (w : World) : cache_ok w -> cache_ok (_ensureHelpers w).
Proof.
  intros [Hlt Hinj]. destruct (ensureHelpers_cache w) as (Hc & Hn & Hid).
  unfold cache_ok. rewrite Hc, Hn. split; [|exact Hinj].
  intros k el Hk. destruct (Hlt _ _ Hk) as [Hl Hcan]. split; [exact Hl|].
  rewrite (Hid Hcan). exact Hcan.
Qed.

Lemma createCard_ok (c : CardConfig.t) (w : World) :
  cache_ok w -> cache_ok (snd (_createCard c w)).
Proof.
  intros H. unfold _createCard. apply createCard_body_ok, ensureHelpers_ok, H.
Qed.

(** A request for a cached key returns the cached element and changes
    nothing. *)
Lemma createCard_hit (c : CardConfig.t) (w : World) (el : Element.t) :
  cache_ok w ->
  cardCache (this w) !! _cardConfigKey c = Some el ->
  _createCard c w = (Returned el, w).
Proof.
  intros [Hlt _] Hk. destruct (Hlt _ _ Hk) as [_ Hcan].
  destruct (ensureHelpers_cache w) as (_ & _ & Hid).
  unfold _createCard. rewrite (Hid Hcan). unfold _createCard_body.
  rewrite Hk. reflexivity.
Qed.

(** A request for a key that is not cached creates a fresh element, when
    the helpers can. *)
Lemma createCard_miss (c : CardConfig.t) (w : World) :
  canCreate w ->
  cardCache (this w) !! _cardConfigKey c = None ->
  exists el w',
    _createCard c w = (Returned el, w')
    /\ Element.ref el = nextRef (env w)
    /\ cardCache (this w') = <[_cardConfigKey c := el]> (cardCache (this w)).
Proof.
  intros Hcan Hk. destruct (ensureHelpers_cache w) as (_ & _ & Hid).
  unfold _createCard. rewrite (Hid Hcan).
  pose proof (createCard_body_cache c w) as H. simpl in H.
  destruct (_createCard_body c w) as [[el|e] w'].
  - destruct H as (Hc & _ & H). rewrite Hk in H. destruct H as (Hr & _ & _).
    eauto.
  - destruct H as (_ & _ & _ & _ & Hno). contradiction.
Qed.

(** X21: creation is idempotent by the serialised key, on a sound cache
    (one whose elements were created earlier by helpers that are still
    loaded).  When the helpers can create elements a request returns an
    element.  After a request for [c1] has returned [el1], a request for a
    configuration with the same key returns the very same element [el1]
    and changes nothing, and a request for a configuration with a
    different key returns a different element, the cache then holding each
    under its own key.  The key is the serialisation when there is one,
    and the [type] member (or the text of [String(cfg)]) when serialising
    fails, so that two configurations that cannot be serialised and have
    the same [type] share one key, and with it one cache entry. *)
Theorem createCard_twice (c1 c2 : CardConfig.t) (w : World) :
  cache_ok w ->
  (canCreate (_ensureHelpers w) -> exists el w1, _createCard c1 w = (Returned el, w1))
  /\ (forall el1 w1,
        _createCard c1 w = (Returned el1, w1) ->
        cache_ok w1
        /\ cardCache (this w1) !! _cardConfigKey c1 = Some el1
        /\ (_cardConfigKey c1 = _cardConfigKey c2 ->
            _createCard c2 w1 = (Returned el1, w1))
        /\ (_cardConfigKey c1 <> _cardConfigKey c2 ->
            exists el2 w2,
              _createCard c2 w1 = (Returned el2, w2)
              /\ Element.ref el2 <> Element.ref el1
              /\ cardCache (this w2) !! _cardConfigKey c1 = Some el1
              /\ cardCache (this w2) !! _cardConfigKey c2 = Some el2))
  /\ (forall s, CardConfig.stringify c1 = Some s -> _cardConfigKey c1 = s)
  /\ (CardConfig.stringify c1 = None -> _cardConfigKey c1 = fallbackKey c1)
  /\ (CardConfig.stringify c1 = None -> CardConfig.stringify c2 = None ->
      CardConfig.type c1 = CardConfig.type c2 ->
      _cardConfigKey c1 = _cardConfigKey c2).
Proof.
  intros Hok. split; [|split; [|split; [|split]]].
  - intros Hcan. unfold _createCard.
    pose proof (createCard_body_cache c1 (_ensureHelpers w)) as H. simpl in H.
    destruct (_createCard_body c1 (_ensureHelpers w)) as [[el|e] w1]; [eauto|].
    destruct H as (_ & _ & _ & _ & Hno). contradiction.
  - intros el1 w1 H1.
    pose proof (createCard_ok c1 w Hok) as Hok1. rewrite H1 in Hok1.
    simpl in Hok1.
    assert (Hin : cardCache (this w1) !! _cardConfigKey c1 = Some el1).
    { unfold _createCard in H1.
      pose proof (createCard_body_cache c1 (_ensureHelpers w)) as Hb.
      simpl in Hb. rewrite H1 in Hb. destruct Hb as (Hc1 & _).
      rewrite Hc1. apply lookup_insert_eq. }
    split; [exact Hok1|]. split; [exact Hin|]. split.
    + intros Hk. apply createCard_hit; [exact Hok1|]. rewrite <- Hk. exact Hin.
    + intros Hne. destruct Hok1 as [Hlt Hinj].
      destruct (Hlt _ _ Hin) as [Hl1 Hcan].
      destruct (cardCache (this w1) !! _cardConfigKey c2) as [el2|] eqn:E2.
      * exists el2, w1. rewrite (createCard_hit c2 w1 el2 (conj Hlt Hinj) E2).
        repeat split; [|exact Hin|exact E2].
        intros Hr. apply Hne. symmetry. exact (Hinj _ _ _ _ E2 Hin Hr).
      * destruct (createCard_miss c2 w1 Hcan E2) as (el2 & w2 & H2 & Hr & Hc).
        exists el2, w2. rewrite Hc. repeat split; [exact H2|lia| |].
        -- rewrite lookup_insert_ne by congruence. exact Hin.
        -- apply lookup_insert_eq.
  - intros s Hs. unfold _cardConfigKey. rewrite Hs. reflexivity.
  - intros Hs. unfold _cardConfigKey, fallbackKey. rewrite Hs. reflexivity.
  - intros H1 H2 Ht. unfold _cardConfigKey. rewrite H1, H2, Ht. reflexivity.
Qed.

(** *** The cache in reachable states *)

Lemma calm_refl (w : World) : calm w w.
Proof. split; [reflexivity|]. exists []. rewrite app_nil_r. auto. Qed.

Lemma calm_trans (w1 w2 w3 : World) : calm w1 w2 -> calm w2 w3 -> calm w1 w3.
Proof.
  intros [H1 (ts1 & Hm1 & Hf1)] [H2 (ts2 & Hm2 & Hf2)]. split; [congruence|].
  exists (ts1 ++ ts2)%list. rewrite Hm2, Hm1, app_assoc. split; [reflexivity|].
  apply Forall_app; auto.
Qed.

Lemma calm_queue (t : Task) (w : World) : harmless t -> calm w (queueMicrotask t w).
Proof.
  intros H. split; [destruct_world w; reflexivity|]. exists [t].
  split; [destruct_world w; reflexivity|]. auto.
Qed.

Lemma calm_computeAndSetVisible (w : World) : calm w (_computeAndSetVisible w).
Proof.
  unfold _computeAndSetVisible.
  set (w1 := set_visible _ w). assert (H1 : calm w w1) by (subst w1; calm_fields w).
  clearbody w1. destruct (strict_ne _ _); [|exact H1].
  apply (calm_trans _ _ _ H1).
  assert (H2 : calm w1 (if persist_state w1 then queueMicrotask PersistState w1
                        else w1)).
  { destruct (persist_state w1); [apply calm_queue; exact I|apply calm_refl]. }
  apply (calm_trans _ _ _ H2). unfold dispatchEvent.
  generalize (if persist_state w1 then queueMicrotask PersistState w1 else w1).
  intros w2. calm_fields w2.
Qed.

Lemma calm_setConfig (c : option Config.t) (w : World) : calm w (snd (setConfig c w)).
Proof.
  destruct c as [c|]; [|apply calm_refl]. simpl.
  set (w1 := set_show _ (set_config _ w)).
  assert (H1 : calm w w1) by (subst w1; calm_fields w). clearbody w1.
  destruct (Config.card c) as [cc|]; [|exact H1]. simpl.
  apply (calm_trans _ _ _ H1).
  apply (calm_trans _ (queueMicrotask (SetConfigCreate cc) w1));
    [apply calm_queue; exact I|].
  destruct (or_false _); [apply calm_queue; exact I|apply calm_refl].
Qed.

Lemma calm_hass_set (h : option HomeAssistant) (w : World) : calm w (hass_set h w).
Proof.
  unfold hass_set. destruct (config (this w)); [|apply calm_refl].
  destruct h as [hv|]; [|apply calm_refl].
  set (w1 := set_hass _ w). assert (H1 : calm w w1) by (subst w1; calm_fields w).
  clearbody w1. apply (calm_trans _ _ _ H1).
  destruct (card (this w1)); [|apply calm_refl]. calm_fields w1.
Qed.

Lemma calm_bindHass (el : Element.t) (w : World) : calm w (bindHass el w).
Proof.
  unfold bindHass. destruct (_hass (this w)); [|apply calm_refl]. calm_fields w.
Qed.

Lemma calm_process (w : World) : calm w (_processQueuedLovelaceEvent w).
Proof.
  unfold _processQueuedLovelaceEvent.
  set (w1 := set_lastEvent None _).
  assert (H1 : calm w w1) by (subst w1; calm_fields w). clearbody w1.
  destruct (_lastEvent (this w)) as [[d| |]|]; try exact H1.
  apply (calm_trans _ _ _ H1).
  apply (calm_trans _ (set_show (applyAction (effectiveAction (config (this w1)) d)
                                   (show (this w1))) w1)).
  - calm_fields w1.
  - apply calm_computeAndSetVisible.
Qed.

Lemma calm_animationFrame (w : World) : calm w (animationFrame w).
Proof.
  unfold animationFrame. apply (calm_trans _ (set_frames 0 w)); [calm_fields w|].
  generalize (set_frames 0 w). generalize (frames (env w)). clear.
  intros n. induction n as [|n IH]; intros w; [apply calm_refl|].
  simpl. apply (calm_trans _ _ _ (IH w)), calm_process.
Qed.

Lemma calm_handle (e : Event) (w : World) : calm w (_handleLovelaceDomEvent e w).
Proof.
  unfold _handleLovelaceDomEvent.
  set (w1 := set_lastEvent _ w). assert (H1 : calm w w1) by (subst w1; calm_fields w).
  clearbody w1. destruct (_pendingEvent (this w1)); [exact H1|].
  apply (calm_trans _ _ _ H1). unfold requestAnimationFrame. calm_fields w1.
Qed.

Lemma calm_restoreState (c : Config.t) (w : World) : calm w (restoreState c w).
Proof.
  unfold restoreState. destruct (localStorage (env w)); [|apply calm_refl].
  simpl. destruct (_ !! _); [|apply calm_refl].
  destruct (negb _); [|apply calm_refl].
  eapply calm_trans; [|apply calm_computeAndSetVisible]. calm_fields w.
Qed.

Lemma calm_persistState (w : World) : calm w (persistState w).
Proof.
  unfold persistState. destruct (localStorage (env w)); [|apply calm_refl].
  destruct (_getStorageKey None w); [|apply calm_refl]. calm_fields w.
Qed.

Lemma wf_calm (w w' : World) : wf w -> calm w w' -> wf w'.
Proof.
  intros ([Hlt Hinj] & Hl & Ht) [Hw (ts & Hm & Hts)].
  unfold widget in Hw. injection Hw as Hc Hn Hh Hr.
  unfold wf, cache_ok, listeners_ok, canCreate. rewrite Hc, Hn, Hh, Hr, Hm.
  repeat split; try assumption.
  - apply (Hlt _ _ H).
  - apply (Hlt _ _ H).
  - apply Forall_app. split.
    + eapply Forall_impl; [exact Ht|]. intros t.
      destruct t as [| | | |el [|key el0]| | |]; simpl; try rewrite Hc; auto.
    + eapply Forall_impl; [exact Hts|]. intros t.
      destruct t as [| | |c [|key el0]|el [|key el0]| | |]; simpl; tauto.
Qed.

Lemma wf_queue (t : Task) (w : World) :
  wf w -> task_ok w t -> wf (queueMicrotask t w).
Proof.
  intros (Hc & Hl & Ht) Hok. destruct_world w.
  unfold wf, cache_ok, canCreate, listeners_ok, queueMicrotask in *.
  simpl in *. split; [exact Hc|]. split; [exact Hl|].
  apply Forall_app. split; [|constructor; [exact Hok|constructor]].
  eapply Forall_impl; [exact Ht|]. intros t0.
  destruct t0 as [| | | |el [|key el0]| | |]; simpl; auto.
Qed.

Lemma wf_ensureHelpers (w : World) : wf w -> wf (_ensureHelpers w).
Proof.
  intros (Hc & Hl & Ht). split; [apply ensureHelpers_ok, Hc|].
  destruct_world w. unfold _ensureHelpers. simpl in *.
  destruct cardHelpers0; [auto|]. destruct loadCardHelpers0; auto.
Qed.

Lemma task_ok_mono (w w' : World) (t : Task) :
  (forall k el, cardCache (this w) !! k = Some el ->
                cardCache (this w') !! k = Some el) ->
  task_ok w t -> task_ok w' t.
Proof.
  intros Hm. destruct t as [| | | |el [|key el0]| | |]; simpl; auto.
Qed.

Lemma wf_createCard_body (c : CardConfig.t) (w : World) :
  wf w ->
  wf (snd (_createCard_body c w))
  /\ forall el, fst (_createCard_body c w) = Returned el ->
                cardCache (this (snd (_createCard_body c w))) !! _cardConfigKey c
                = Some el.
Proof.
  intros (Hc & Hl & Ht).
  pose proof (createCard_body_ok c w Hc) as Hok.
  pose proof (createCard_body_cache c w) as Hb. simpl in Hb.
  assert (Hrest : microtasks (env (snd (_createCard_body c w))) = microtasks (env w)
                  /\ listeners_ok (snd (_createCard_body c w))).
  { clear Hb Hok Hc Ht. destruct_world w. unfold _createCard_body, listeners_ok in *.
    simpl in *. destruct (cardCache0 !! _); [auto|].
    destruct cardHelpers0 as [[[create|]]|]; simpl; auto.
    destruct (create c) as [name size]. unfold bindHass. simpl.
    assert (Hl' : forall r key c0,
               <[nextRef0 := (_cardConfigKey c, c)]> rebuildListeners0 !! r
               = Some (key, c0) -> key = _cardConfigKey c0).
    { intros r key c0. destruct (decide (nextRef0 = r)) as [<-|Hne].
      - rewrite lookup_insert_eq. intros [= <- <-]. reflexivity.
      - rewrite lookup_insert_ne by exact Hne. apply Hl. }
    destruct _hass0; simpl; auto. }
  destruct Hrest as [Hm Hl'].
  destruct (_createCard_body c w) as [[el|e] w']; simpl in *.
  - destruct Hb as (Hcache & _ & Hcase). split.
    + split; [exact Hok|]. split; [exact Hl'|]. rewrite Hm.
      eapply Forall_impl; [exact Ht|]. intros t. apply task_ok_mono.
      intros k el' Hk. rewrite Hcache.
      destruct (decide (_cardConfigKey c = k)) as [<-|Hne].
      * rewrite Hk in Hcase. destruct Hcase as [-> _].
        apply lookup_insert_eq.
      * rewrite lookup_insert_ne by exact Hne. exact Hk.
    + intros el' [= <-]. rewrite Hcache. apply lookup_insert_eq.
  - destruct Hb as (Hcache & _). split; [|discriminate].
    split; [exact Hok|]. split; [exact Hl'|]. rewrite Hm.
    eapply Forall_impl; [exact Ht|]. intros t. apply task_ok_mono.
    rewrite Hcache. auto.
Qed.

Lemma calm_createCard_resume (el : Element.t) (w : World) :
  calm w (createCard_resume el w).
Proof.
  unfold createCard_resume.
  eapply calm_trans; [|apply calm_computeAndSetVisible].
  eapply calm_trans; [|apply calm_bindHass]. calm_fields w.
Qed.

Lemma calm_rebuild_resume (key : string) (el : Element.t) (w : World) :
  cardCache (this w) !! key = Some el -> calm w (rebuild_resume key el w).
Proof.
  intros Hk. unfold rebuild_resume. rewrite (insert_id _ _ _ Hk).
  eapply calm_trans; [|apply calm_computeAndSetVisible].
  eapply calm_trans; [|apply calm_bindHass]. calm_fields w.
Qed.

Lemma wf_runTask (t : Task) (w : World) :
  wf w -> task_ok w t -> wf (runTask t w).
Proof.
  intros Hw Ht. destruct t as [c|c k|key el c|c k|el k| |c|]; simpl.
  - apply wf_queue; [apply wf_ensureHelpers, Hw|exact I].
  - apply wf_queue; [apply wf_ensureHelpers, Hw|exact I].
  - apply wf_queue; [apply wf_ensureHelpers, Hw|exact Ht].
  - destruct (wf_createCard_body c w Hw) as [Hw' Hel].
    destruct (_createCard_body c w) as [[el|e] w']; simpl in *; [|exact Hw'].
    apply wf_queue; [exact Hw'|].
    destruct k as [k|key el0]; simpl; [exact I|].
    simpl in Ht. subst key. apply Hel. reflexivity.
  - destruct k as [k|key el0].
    + pose proof (wf_calm _ _ Hw (calm_createCard_resume el w)) as Hw'.
      destruct k; [apply wf_queue; [exact Hw'|exact I]|exact Hw'].
    + simpl in Ht. apply (wf_calm _ _ Hw), calm_rebuild_resume, Ht.
  - apply (wf_calm _ _ Hw), calm_computeAndSetVisible.
  - apply (wf_calm _ _ Hw), calm_restoreState.
  - apply (wf_calm _ _ Hw), calm_persistState.
Qed.

Lemma wf_perform (op : Op) (w : World) : wf w -> wf (perform w op).
Proof.
  intros Hw. destruct op as [c|b|h|changed| | |c|el|e| |]; simpl.
  - apply (wf_calm _ _ Hw), calm_setConfig.
  - apply (wf_calm _ _ Hw). calm_fields w.
  - apply (wf_calm _ _ Hw), calm_hass_set.
  - unfold updated.
    destruct (_ || _); [apply (wf_calm _ _ Hw), calm_computeAndSetVisible|exact Hw].
  - apply (wf_calm _ _ Hw). unfold connectedCallback. calm_fields w.
  - apply (wf_calm _ _ Hw). unfold disconnectedCallback. calm_fields w.
  - apply wf_runTask; [exact Hw|exact I].
  - unfold ll_rebuild.
    destruct (rebuildListeners (env w) !! Element.ref el) as [[key c]|] eqn:E;
      [|exact Hw].
    apply wf_queue; [exact Hw|]. simpl. destruct Hw as (_ & Hl & _).
    exact (Hl _ _ _ E).
  - unfold documentEvent.
    destruct (listening (env w)); [apply (wf_calm _ _ Hw), calm_handle|exact Hw].
  - apply (wf_calm _ _ Hw), calm_animationFrame.
  - unfold runMicrotask. destruct (microtasks (env w)) as [|t rest] eqn:E;
      [exact Hw|].
    destruct Hw as (Hc & Hl & Ht). rewrite E in Ht.
    apply Forall_cons in Ht. destruct Ht as [Ht Hrest].
    apply wf_runTask.
    + destruct_world w.
      unfold wf, cache_ok, canCreate, listeners_ok in *. simpl in *.
      split; [exact Hc|]. split; [exact Hl|].
      eapply Forall_impl; [exact Hrest|]. intros t0.
      destruct t0 as [| | | |el [|key el0]| | |]; simpl; auto.
    + destruct_world w. destruct t as [| | | |el [|key el0]| | |]; exact Ht.
Qed.

Lemma wf_boot loader storage : wf (boot loader storage).
Proof.
  unfold wf, cache_ok, listeners_ok, boot, newCard.
  cbn [this env cardCache rebuildListeners microtasks nextRef].
  split; [split|split].
  - intros k el H. rewrite lookup_empty in H. discriminate.
  - intros k1 k2 el1 el2 H. rewrite lookup_empty in H. discriminate.
  - intros r key c H. rewrite lookup_empty in H. discriminate.
  - constructor.
Qed.

(** Every state a fresh card can reach has a sound cache. *)
Lemma cache_ok_reachable loader storage (ops : list Op) :
  cache_ok (foldl perform (boot loader storage) ops).
Proof.
  assert (H : wf (foldl perform (boot loader storage) ops)).
  { induction ops as [|op ops IH] using rev_ind; [apply wf_boot|].
    rewrite foldl_app. simpl. apply wf_perform, IH. }
  apply H.
Qed.

(** A fresh card whose host can create: the two configurations share one
    element, and [xCard] gets another. *)
Lemma createCard_twice_witness :
  let w := boot xHost None in
  exists el w1,
    _createCard cyclicA w = (Returned el, w1)
    /\ _createCard cyclicB w1 = (Returned el, w1)
    /\ exists el2 w2,
         _createCard xCard w1 = (Returned el2, w2)
         /\ Element.ref el2 <> Element.ref el.
Proof.
  intros w.
  assert (Hok : cache_ok w).
  { split.
    - intros k el H. vm_compute in H. discriminate.
    - intros k1 k2 el1 el2 H. vm_compute in H. discriminate. }
  destruct (createCard_twice cyclicA cyclicB w Hok) as (H1 & H2 & _ & _ & H5).
  destruct H1 as (el & w1 & Hel).
  { eexists. vm_compute. reflexivity. }
  exists el, w1. split; [exact Hel|].
  destruct (H2 el w1 Hel) as (_ & _ & Hsame & _). split.
  - apply Hsame. apply H5; reflexivity.
  - destruct (createCard_twice cyclicA xCard w Hok) as (_ & H2' & _).
    destruct (H2' el w1 Hel) as (_ & _ & _ & Hdiff).
    destruct Hdiff as (el2 & w2 & Ha & Hb & _).
    + vm_compute. discriminate.
    + exists el2, w2. split; assumption.
Defined.

(** C8: when the host offers no [createCardElement] (the loader is
    missing, rejects, or delivers helpers without it), creation is not
    idempotent by key, it fails: the fallback branch, meant to "create a
    basic element so the card doesn't blow up", assigns to the getter-only
    [localName] and throws.  Two requests with the same configuration both
    throw a [TypeError], nothing is returned and nothing is cached, and the
    card configured by [setConfig] never gets a child. *)
Theorem createCard_fallback_throws :
  (let w := boot LoaderMissing None in
   let r1 := _createCard xCard w in
   let r2 := _createCard xCard (snd r1) in
   fst r1 = Thrown "TypeError" /\ fst r2 = Thrown "TypeError"
   /\ cardCache (this (snd r2)) = ∅)
  /\ fst (_createCard xCard (boot LoaderRejects None)) = Thrown "TypeError"
  /\ fst (_createCard xCard (boot (LoaderResolves None) None)) = Thrown "TypeError"
  /\ fst (_createCard xCard (boot (LoaderResolves (Some (mkHelpers None))) None))
     = Thrown "TypeError"
  /\ (let w := runMicrotasks 3 (snd (setConfig (Some cardA) (boot LoaderMissing None))) in
      card (this w) = None /\ cardCache (this w) = ∅ /\ microtasks (env w) = []).
Proof. vm_compute. repeat split. Qed.

(** * Further properties *)

(** ** Reconciliation, continued *)

(** The three shapes of a reconciliation. *)
Lemma computeAndSetVisible_cases (w : World) :
  let w1 := set_visible (_computeVisibility w) w in
  _computeAndSetVisible w = w1
  \/ _computeAndSetVisible w = dispatchEvent "card-visibility-changed" w1
  \/ _computeAndSetVisible w
     = dispatchEvent "card-visibility-changed" (queueMicrotask PersistState w1).
Proof.
  simpl. unfold _computeAndSetVisible.
  destruct (strict_ne _ _); [|auto].
  destruct (persist_state _); auto.
Qed.

Ltac reconcile_cases w :=
  destruct (computeAndSetVisible_cases w) as [-> | [-> | ->]];
  destruct_world w; try reflexivity.

(** What [_computeVisibility] reads is not touched by a reconciliation. *)
Lemma computeVisibility_computeAndSetVisible (w : World) :
  _computeVisibility (_computeAndSetVisible w) = _computeVisibility w.
Proof. reconcile_cases w. Qed.

Lemma visible_computeAndSetVisible (w : World) :
  visible (this (_computeAndSetVisible w)) = _computeVisibility w.
Proof. reconcile_cases w. Qed.

(** X1: after a reconciliation the stored [visible] is the effective
    visibility of the state reached, so that [hidden] and the class chosen
    by [render] agree with what [_computeVisibility] and [getCardSize] see. *)
Theorem reconciled_not_stale (w : World) :
  let w' := _computeAndSetVisible w in
  visible (this w') = _computeVisibility w'
  /\ hidden w' = negb (truthy (_computeVisibility w'))
  /\ fst (render w') = (if hidden w' then "hidden" else "")
  /\ (hidden w' = true -> getCardSize w' = 0%Z).
Proof.
  simpl.
  assert (H : visible (this (_computeAndSetVisible w))
              = _computeVisibility (_computeAndSetVisible w)).
  { rewrite computeVisibility_computeAndSetVisible.
    apply visible_computeAndSetVisible. }
  split; [exact H|]. unfold hidden, render, getCardSize. rewrite H. simpl.
  split; [reflexivity|]. split.
  - destruct (truthy _); reflexivity.
  - intros ->. reflexivity.
Qed.

Lemma reconciled_not_stale_witness :
  hidden (_computeAndSetVisible
            (withChild false (Some (Element.mk 0 "hui-x" (Some (SizeReturns 7))))))
  = true
  /\ getCardSize (_computeAndSetVisible
                    (withChild false (Some (Element.mk 0 "hui-x" (Some (SizeReturns 7))))))
     = 0%Z.
Proof.
  split; [reflexivity|].
  exact (proj2 (proj2 (proj2 (reconciled_not_stale
           (withChild false (Some (Element.mk 0 "hui-x" (Some (SizeReturns 7)))))))) eq_refl).
Defined.

(** X2: reconciling twice in a row is reconciling once: the second pass
    sees an identical value, dispatches nothing and queues nothing. *)
Theorem computeAndSetVisible_idempotent (w : World) :
  _computeAndSetVisible (_computeAndSetVisible w) = _computeAndSetVisible w.
Proof.
  apply computeAndSetVisible_unchanged.
  rewrite computeVisibility_computeAndSetVisible, visible_computeAndSetVisible.
  destruct (_computeVisibility w) as [[|]|]; reflexivity.
Qed.

(** ** Events that are not for this card *)

Lemma find_existsb_false {A} (f : A -> bool) (l : list A) :
  existsb f l = false -> List.find f l = None.
Proof.
  induction l as [|x l IH]; simpl; [reflexivity|].
  destruct (f x); simpl; [discriminate|exact IH].
Qed.

Lemma unaddressed_applyAction (c : option Config.t) (d : LovelaceDomDetail)
    (shown : bool) :
  addresses c (LovelaceDomEvent d) = false ->
  applyAction (effectiveAction c d) shown = shown.
Proof.
  unfold addresses, effectiveAction. destruct (String.eqb (action d) "set") eqn:E.
  - apply String.eqb_eq in E. destruct c as [c|]; intros H.
    + rewrite (find_existsb_false _ _ H), E. reflexivity.
    + rewrite E. reflexivity.
  - intros ->. reflexivity.
Qed.

Lemma process_unaddressed (e : Event) (w : World) :
  addresses (config (this w)) e = false ->
  _lastEvent (this w) = Some e ->
  show (this (_processQueuedLovelaceEvent w)) = show (this w).
Proof.
  intros Ha He. destruct e as [d| |].
  - rewrite (processQueued_show d w He). apply unaddressed_applyAction, Ha.
  - unfold _processQueuedLovelaceEvent. rewrite He. destruct_world w. reflexivity.
  - unfold _processQueuedLovelaceEvent. rewrite He. destruct_world w. reflexivity.
Qed.

Lemma last_Forall {A} (P : A -> Prop) (l : list A) (d : A) :
  P d -> Forall P l -> P (List.last l d).
Proof.
  intros Hd H. revert d Hd. induction H as [|x l Hx _ IH]; intros d Hd; [exact Hd|].
  rewrite last_cons. apply IH, Hx.
Qed.

Lemma frame_unaddressed (burst : list Event) (w : World) :
  idle w ->
  Forall (fun e => addresses (config (this w)) e = false) burst ->
  let w' := frame burst w in
  idle w' /\ config (this w') = config (this w) /\ show (this w') = show (this w).
Proof.
  intros Hi HF. simpl. rewrite (frame_idle burst w Hi).
  destruct HF as [|e es He HF]; [auto|].
  set (w1 := set_lastEvent _ w).
  assert (H1 : config (this w1) = config (this w) /\ show (this w1) = show (this w)
               /\ _lastEvent (this w1) = Some (List.last es e)
               /\ frames (env w1) = 0).
  { subst w1. unfold idle, coalescer in Hi. destruct_world w. simpl in *.
    injection Hi as _ _ ->. auto. }
  destruct H1 as (Hc & Hs & Hl & Hf).
  split; [|split].
  - unfold idle. rewrite process_coalescer, Hf. reflexivity.
  - rewrite process_config. exact Hc.
  - rewrite <- Hs. apply (process_unaddressed (List.last es e)); [|exact Hl].
    rewrite Hc. apply last_Forall; assumption.
Qed.

(** X3: events that do not name the card never change [show], however
    they are spread over frames: foreign events, malformed ones, plain
    payloads whose [ids] lack the card's id, and [set] payloads without a
    mapping for it. *)
Theorem unaddressed_events_keep_show (bursts : list (list Event)) (w : World) :
  idle w ->
  Forall (Forall (fun e => addresses (config (this w)) e = false)) bursts ->
  show (this (runFrames bursts w)) = show (this w).
Proof.
  intros Hi HF. revert w Hi HF.
  induction bursts as [|burst bursts IH]; intros w Hi HF; [reflexivity|].
  apply Forall_cons in HF. destruct HF as [Hb HF].
  destruct (frame_unaddressed burst w Hi Hb) as (Hi' & Hc' & Hs').
  unfold runFrames in *. simpl foldl. rewrite IH; [exact Hs'|exact Hi'|].
  rewrite Hc'. exact HF.
Qed.

Lemma unaddressed_events_keep_show_witness :
  show (this (runFrames
                [[ForeignEvent; LovelaceDomEvent (mkDetail [IdString "b"] "toggle")];
                 [LovelaceDomEvent
                    (mkDetail [IdRecord {[ "b" := AString "show" ]}] "set");
                  MalformedEvent]]
                (snd (setConfig (Some cardA) (boot xHost None)))))
  = false.
Proof.
  apply (unaddressed_events_keep_show _ (snd (setConfig (Some cardA) (boot xHost None)))).
  - reflexivity.
  - repeat constructor.
Defined.

(** X4: a frame whose last buffered event is foreign or malformed leaves
    an idle card exactly as it was: the failure of the decoder is
    swallowed, nothing is reconciled, dispatched or written. *)
Theorem frame_swallows (pre : list Event) (e : Event) (w : World) :
  idle w -> e = ForeignEvent \/ e = MalformedEvent ->
  frame (pre ++ [e])%list w = w.
Proof.
  intros Hi He. rewrite (frame_idle _ w Hi).
  destruct (pre ++ [e])%list as [|x l] eqn:E; [destruct pre; discriminate|].
  assert (Hl : List.last l x = e).
  { rewrite <- last_cons with (d := x), <- E. apply last_last. }
  rewrite Hl. unfold idle, coalescer in Hi. unfold _processQueuedLovelaceEvent.
  destruct_world w. simpl in *. injection Hi as -> -> ->.
  destruct He as [-> | ->]; reflexivity.
Qed.

Lemma frame_swallows_witness :
  frame [toggleA; MalformedEvent] (boot xHost None) = boot xHost None.
Proof.
  apply (frame_swallows [toggleA] MalformedEvent (boot xHost None)).
  - reflexivity.
  - right. reflexivity.
Defined.

(** ** Attaching and detaching *)

Lemma computeAndSetVisible_listening (b : bool) (w : World) :
  _computeAndSetVisible (set_listening b w)
  = set_listening b (_computeAndSetVisible w).
Proof.
  destruct_world w. unfold _computeAndSetVisible. simpl.
  destruct (strict_ne _ _); [|reflexivity]. unfold persist_state. simpl.
  destruct config0 as [c|]; [destruct (or_false _)|]; reflexivity.
Qed.

Lemma process_listening (b : bool) (w : World) :
  _processQueuedLovelaceEvent (set_listening b w)
  = set_listening b (_processQueuedLovelaceEvent w).
Proof.
  unfold _processQueuedLovelaceEvent.
  replace (_lastEvent (this (set_listening b w))) with (_lastEvent (this w))
    by (destruct_world w; reflexivity).
  destruct (_lastEvent (this w)) as [[d| |]|]; try (destruct_world w; reflexivity).
  rewrite <- computeAndSetVisible_listening. f_equal.
  destruct_world w. reflexivity.
Qed.

Lemma animationFrame_listening (b : bool) (w : World) :
  animationFrame (set_listening b w) = set_listening b (animationFrame w).
Proof.
  unfold animationFrame.
  replace (frames (env (set_listening b w))) with (frames (env w))
    by (destruct_world w; reflexivity).
  replace (set_frames 0 (set_listening b w)) with (set_listening b (set_frames 0 w))
    by (destruct_world w; reflexivity).
  generalize (set_frames 0 w). induction (frames (env w)) as [|n IH]; intros w0;
    [reflexivity|].
  simpl. rewrite IH. apply process_listening.
Qed.

(** X5: attaching and detaching.  While detached, events of the channel do
    not reach the card; detaching does not cancel a delivery that is
    already scheduled, which runs at the next frame as if the card were
    attached; attaching twice is attaching once, and detaching undoes
    attaching on a card that was detached. *)
Theorem detach_ignores_events (e : Event) (w : World) :
  documentEvent e (disconnectedCallback w) = disconnectedCallback w
  /\ documentEvent e (connectedCallback w)
     = connectedCallback (_handleLovelaceDomEvent e w)
  /\ animationFrame (disconnectedCallback w) = disconnectedCallback (animationFrame w)
  /\ connectedCallback (connectedCallback w) = connectedCallback w
  /\ disconnectedCallback (disconnectedCallback w) = disconnectedCallback w
  /\ disconnectedCallback (connectedCallback (disconnectedCallback w))
     = disconnectedCallback w.
Proof.
  split; [|split; [|split; [|split; [|split]]]].
  - destruct_world w. reflexivity.
  - destruct_world w. unfold documentEvent, _handleLovelaceDomEvent. simpl.
    destruct _pendingEvent0; reflexivity.
  - apply animationFrame_listening.
  - destruct_world w. reflexivity.
  - destruct_world w. reflexivity.
  - destruct_world w. reflexivity.
Qed.

(** ** What changes [show] *)

Lemma show_ensureHelpers (w : World) : show (this (_ensureHelpers w)) = show (this w).
Proof.
  destruct_world w. unfold _ensureHelpers. simpl.
  destruct cardHelpers0; [reflexivity|]. destruct loadCardHelpers0; reflexivity.
Qed.

Lemma show_queueMicrotask (t : Task) (w : World) :
  show (this (queueMicrotask t w)) = show (this w).
Proof. destruct_world w. reflexivity. Qed.

Lemma show_bindHass (el : Element.t) (w : World) :
  show (this (bindHass el w)) = show (this w).
Proof. destruct_world w. unfold bindHass. simpl. destruct _hass0; reflexivity. Qed.

Lemma show_createCard_body (c : CardConfig.t) (w : World) :
  show (this (snd (_createCard_body c w))) = show (this w).
Proof.
  destruct_world w. unfold _createCard_body. simpl.
  destruct (cardCache0 !! _); [reflexivity|].
  destruct cardHelpers0 as [[[create|]]|]; try reflexivity.
  destruct (create c) as [name size]. simpl.
  unfold bindHass. simpl. destruct _hass0; reflexivity.
Qed.

Lemma show_persistState (w : World) : show (this (persistState w)) = show (this w).
Proof.
  unfold persistState. destruct (localStorage (env w)); [|reflexivity].
  destruct (_getStorageKey None w); [|reflexivity]. destruct_world w. reflexivity.
Qed.

Lemma show_runTask (t : Task) (w : World) :
  (forall c, t <> RestoreState c) ->
  show (this (runTask t w)) = show (this w).
Proof.
  intros Ht. destruct t as [c|c k|key el c|c k|el k| |c|]; simpl.
  - rewrite show_queueMicrotask. apply show_ensureHelpers.
  - rewrite show_queueMicrotask. apply show_ensureHelpers.
  - rewrite show_queueMicrotask. apply show_ensureHelpers.
  - pose proof (show_createCard_body c w) as H.
    destruct (_createCard_body c w) as [[el|e] w']; simpl in H;
      rewrite ?show_queueMicrotask; exact H.
  - destruct k as [k|key el0].
    + assert (H : show (this (createCard_resume el w)) = show (this w)).
      { unfold createCard_resume. rewrite show_computeAndSetVisible, show_bindHass.
        destruct_world w. reflexivity. }
      destruct k; rewrite ?show_queueMicrotask; exact H.
    + unfold rebuild_resume. rewrite show_computeAndSetVisible, show_bindHass.
      destruct_world w. reflexivity.
  - apply show_computeAndSetVisible.
  - destruct (Ht c eq_refl).
  - apply show_persistState.
Qed.

(** X6: [show] is changed by nothing but [setConfig], the delivery of a
    buffered event at a frame boundary, and the restore closure.  Buffering
    an event, creating or rebuilding the child, the [hass] and [preview]
    setters, [updated], attaching, detaching and persisting leave it as it
    is. *)
Theorem show_changed_only_by (op : Op) (w : World) :
  show (this (perform w op)) <> show (this w) ->
  (exists c, op = OpSetConfig (Some c))
  \/ (op = OpAnimationFrame /\ 0 < frames (env w))
  \/ (op = OpMicrotask
      /\ exists c rest, microtasks (env w) = RestoreState c :: rest).
Proof.
  intros Hne. destruct op as [c|b|h|changed| | |c|el|e| |]; simpl in Hne.
  - destruct c as [c|]; [eauto|]. destruct Hne. reflexivity.
  - destruct Hne. destruct_world w. reflexivity.
  - destruct Hne. unfold hass_set. destruct (config (this w)); [|reflexivity].
    destruct h; [|reflexivity]. destruct_world w. simpl.
    destruct card0; reflexivity.
  - destruct Hne. unfold updated.
    destruct (_ || _); [apply show_computeAndSetVisible|reflexivity].
  - destruct Hne. destruct_world w. reflexivity.
  - destruct Hne. destruct_world w. reflexivity.
  - destruct Hne. apply show_runTask. discriminate.
  - destruct Hne. unfold ll_rebuild.
    destruct (_ !! _) as [[key c]|]; [apply show_queueMicrotask|reflexivity].
  - destruct Hne. unfold documentEvent, _handleLovelaceDomEvent.
    destruct (listening (env w)); [|reflexivity]. destruct_world w. simpl.
    destruct _pendingEvent0; reflexivity.
  - right. left. split; [reflexivity|].
    destruct (frames (env w)) eqn:E; [|lia]. destruct Hne.
    unfold animationFrame. rewrite E. destruct_world w. reflexivity.
  - right. right. split; [reflexivity|].
    unfold runMicrotask in Hne. destruct (microtasks (env w)) as [|t rest];
      [destruct Hne; reflexivity|].
    destruct t as [c|c k|key el c|c k|el k| |c|]; eauto;
      destruct Hne; rewrite show_runTask by discriminate;
      destruct_world w; reflexivity.
Qed.

Lemma show_changed_only_by_witness :
  let w := set_microtasks [RestoreState cardA]
             (stored cardA "true" ∅ (snd (setConfig (Some cardA) (boot xHost None)))) in
  (exists c, OpMicrotask = OpSetConfig (Some c))
  \/ (OpMicrotask = OpAnimationFrame /\ 0 < frames (env w))
  \/ (OpMicrotask = OpMicrotask
      /\ exists c rest, microtasks (env w) = RestoreState c :: rest).
Proof.
  intros w. apply (show_changed_only_by OpMicrotask w). vm_compute. discriminate.
Defined.

(** ** The storage *)

Lemma still_refl (w : World) : still w w.
Proof.
  split; [reflexivity|]. split; [reflexivity|]. exists [].
  rewrite app_nil_r. auto.
Qed.

Lemma persist_state_config (w w' : World) :
  config (this w') = config (this w) -> persist_state w' = persist_state w.
Proof. unfold persist_state. intros ->. reflexivity. Qed.

Lemma still_trans (w1 w2 w3 : World) : still w1 w2 -> still w2 w3 -> still w1 w3.
Proof.
  intros (H1 & Hc1 & ts1 & Hm1 & Hf1) (H2 & Hc2 & ts2 & Hm2 & Hf2).
  split; [congruence|]. split; [congruence|].
  exists (ts1 ++ ts2)%list. rewrite Hm2, Hm1, app_assoc. split; [reflexivity|].
  intros Hp. apply Forall_app. split; [auto|].
  apply Hf2. rewrite (persist_state_config _ _ Hc1). exact Hp.
Qed.

Ltac still_fields w :=
  split; [destruct_world w; reflexivity
         |split; [destruct_world w; reflexivity
                 |exists []; rewrite app_nil_r; split;
                  [destruct_world w; reflexivity|auto]]].

Lemma still_queue (t : Task) (w : World) :
  t <> PersistState -> still w (queueMicrotask t w).
Proof.
  intros H. split; [destruct_world w; reflexivity|].
  split; [destruct_world w; reflexivity|]. exists [t].
  split; [destruct_world w; reflexivity|auto].
Qed.

Lemma still_computeAndSetVisible (w : World) : still w (_computeAndSetVisible w).
Proof.
  unfold _computeAndSetVisible.
  set (w1 := set_visible _ w).
  assert (H1 : still w w1) by (subst w1; still_fields w).
  assert (Hp : persist_state w1 = persist_state w)
    by (apply persist_state_config, H1).
  clearbody w1. destruct (strict_ne _ _); [|exact H1].
  apply (still_trans _ _ _ H1).
  assert (H2 : still w1 (if persist_state w1 then queueMicrotask PersistState w1
                         else w1)).
  { destruct (persist_state w1) eqn:E; [|apply still_refl].
    split; [destruct_world w1; reflexivity|].
    split; [destruct_world w1; reflexivity|]. exists [PersistState].
    split; [destruct_world w1; reflexivity|]. intros Hf. congruence. }
  apply (still_trans _ _ _ H2). unfold dispatchEvent.
  generalize (if persist_state w1 then queueMicrotask PersistState w1 else w1).
  intros w2. still_fields w2.
Qed.

Lemma still_ensureHelpers (w : World) : still w (_ensureHelpers w).
Proof.
  unfold _ensureHelpers. destruct (cardHelpers (this w)); [apply still_refl|].
  destruct (loadCardHelpers (env w)); still_fields w.
Qed.

Lemma still_bindHass (el : Element.t) (w : World) : still w (bindHass el w).
Proof.
  unfold bindHass. destruct (_hass (this w)); [|apply still_refl]. still_fields w.
Qed.

Lemma still_createCard_body (c : CardConfig.t) (w : World) :
  still w (snd (_createCard_body c w)).
Proof.
  unfold _createCard_body. destruct (cardCache (this w) !! _); [apply still_refl|].
  set (w1 := set_nextRef _ w).
  assert (H1 : still w w1) by (subst w1; still_fields w).
  assert (Hh : cardHelpers (this w1) = cardHelpers (this w))
    by (subst w1; destruct_world w; reflexivity).
  clearbody w1. rewrite Hh.
  destruct (cardHelpers (this w)) as [[[create|]]|]; try exact H1.
  destruct (create c) as [name size]. cbv beta iota zeta delta [snd].
  apply (still_trans _ _ _ H1).
  set (w2 := set_rebuildListeners _ w1).
  assert (H2 : still w1 w2) by (subst w2; still_fields w1).
  apply (still_trans _ _ _ H2). clearbody w2.
  set (w3 := bindHass _ w2).
  assert (H3 : still w2 w3) by apply still_bindHass.
  apply (still_trans _ _ _ H3). clearbody w3. still_fields w3.
Qed.

Lemma still_createCard_resume (el : Element.t) (w : World) :
  still w (createCard_resume el w).
Proof.
  unfold createCard_resume.
  eapply still_trans; [|apply still_computeAndSetVisible].
  eapply still_trans; [|apply still_bindHass]. still_fields w.
Qed.

Lemma still_rebuild_resume (key : string) (el : Element.t) (w : World) :
  still w (rebuild_resume key el w).
Proof.
  unfold rebuild_resume.
  set (w1 := set_cardCache _ w).
  assert (H1 : still w w1) by (subst w1; still_fields w).
  apply (still_trans _ _ _ H1). clearbody w1.
  eapply still_trans; [|apply still_computeAndSetVisible].
  eapply still_trans; [|apply still_bindHass]. still_fields w1.
Qed.

Lemma still_restoreState (c : Config.t) (w : World) : still w (restoreState c w).
Proof.
  unfold restoreState. destruct (localStorage (env w)); [|apply still_refl].
  simpl. destruct (_ !! _); [|apply still_refl].
  destruct (negb _); [|apply still_refl].
  eapply still_trans; [|apply still_computeAndSetVisible]. still_fields w.
Qed.

Lemma still_runTask (t : Task) (w : World) :
  t <> PersistState -> still w (runTask t w).
Proof.
  intros Ht. destruct t as [c|c k|key el c|c k|el k| |c|]; simpl.
  - eapply still_trans; [apply still_ensureHelpers|apply still_queue; discriminate].
  - eapply still_trans; [apply still_ensureHelpers|apply still_queue; discriminate].
  - eapply still_trans; [apply still_ensureHelpers|apply still_queue; discriminate].
  - pose proof (still_createCard_body c w) as H.
    destruct (_createCard_body c w) as [[el|e] w']; simpl in H; [|exact H].
    eapply still_trans; [exact H|apply still_queue; discriminate].
  - destruct k as [k|key el0]; [|apply still_rebuild_resume].
    destruct k; [|apply still_createCard_resume].
    eapply still_trans; [apply still_createCard_resume|apply still_queue; discriminate].
  - apply still_computeAndSetVisible.
  - apply still_restoreState.
  - destruct Ht. reflexivity.
Qed.

Lemma still_process (w : World) : still w (_processQueuedLovelaceEvent w).
Proof.
  unfold _processQueuedLovelaceEvent.
  set (w1 := set_lastEvent None _).
  assert (H1 : still w w1) by (subst w1; still_fields w). clearbody w1.
  destruct (_lastEvent (this w)) as [[d| |]|]; try exact H1.
  apply (still_trans _ _ _ H1).
  eapply still_trans; [|apply still_computeAndSetVisible]. still_fields w1.
Qed.

Lemma still_animationFrame (w : World) : still w (animationFrame w).
Proof.
  unfold animationFrame. apply (still_trans _ (set_frames 0 w)); [still_fields w|].
  generalize (set_frames 0 w). generalize (frames (env w)). clear.
  intros n. induction n as [|n IH]; intros w; [apply still_refl|].
  simpl. apply (still_trans _ _ _ (IH w)), still_process.
Qed.

Lemma still_tasks (w w' : World) :
  still w w' -> persist_state w = false ->
  Forall (fun t => t <> PersistState) (microtasks (env w)) ->
  Forall (fun t => t <> PersistState) (microtasks (env w')).
Proof.
  intros (_ & _ & ts & -> & Hts) Hp Hf. apply Forall_app. auto.
Qed.

(** Every operation but [setConfig] and the persisting closure. *)
Lemma still_perform (op : Op) (w : World) :
  (forall c, op <> OpSetConfig c) ->
  (op = OpMicrotask -> forall rest, microtasks (env w) <> PersistState :: rest) ->
  storage (perform w op) = storage w
  /\ config (this (perform w op)) = config (this w)
  /\ (persist_state w = false ->
      Forall (fun t => t <> PersistState) (microtasks (env w)) ->
      Forall (fun t => t <> PersistState) (microtasks (env (perform w op)))).
Proof.
  intros Hc Hm.
  assert (Hs : forall w', still w w' ->
             storage w' = storage w /\ config (this w') = config (this w)
             /\ (persist_state w = false ->
                 Forall (fun t => t <> PersistState) (microtasks (env w)) ->
                 Forall (fun t => t <> PersistState) (microtasks (env w')))).
  { intros w' H. split; [apply H|]. split; [apply H|]. apply still_tasks, H. }
  destruct op as [c|b|h|changed| | |c|el|e| |]; simpl.
  - destruct (Hc c eq_refl).
  - apply Hs. still_fields w.
  - apply Hs. unfold hass_set. destruct (config (this w)); [|apply still_refl].
    destruct h; [|apply still_refl].
    set (w1 := set_hass _ w). assert (H1 : still w w1) by (subst w1; still_fields w).
    clearbody w1. apply (still_trans _ _ _ H1).
    destruct (card (this w1)); [still_fields w1|apply still_refl].
  - apply Hs. unfold updated.
    destruct (_ || _); [apply still_computeAndSetVisible|apply still_refl].
  - apply Hs. unfold connectedCallback. still_fields w.
  - apply Hs. unfold disconnectedCallback. still_fields w.
  - apply Hs, still_runTask. discriminate.
  - apply Hs. unfold ll_rebuild.
    destruct (_ !! _) as [[key c]|]; [|apply still_refl].
    apply still_queue. discriminate.
  - apply Hs. unfold documentEvent, _handleLovelaceDomEvent.
    destruct (listening (env w)); [|apply still_refl].
    set (w1 := set_lastEvent _ w). assert (H1 : still w w1) by (subst w1; still_fields w).
    clearbody w1. destruct (_pendingEvent (this w1)); [exact H1|].
    apply (still_trans _ _ _ H1). unfold requestAnimationFrame.
    set (w2 := set_pendingEvent _ w1).
    assert (H2 : still w1 w2) by (subst w2; still_fields w1).
    apply (still_trans _ _ _ H2). clearbody w2. still_fields w2.
  - apply Hs, still_animationFrame.
  - unfold runMicrotask. destruct (microtasks (env w)) as [|t rest] eqn:E.
    { apply Hs, still_refl. }
    assert (Ht : t <> PersistState).
    { intros ->. exact (Hm eq_refl rest eq_refl). }
    pose proof (still_runTask t (set_microtasks rest w) Ht) as H.
    destruct H as (H1 & H2 & ts & Hm' & Hts).
    split; [rewrite H1; unfold storage; destruct_world w; reflexivity|].
    split; [rewrite H2; destruct_world w; reflexivity|].
    intros Hp Hf. rewrite Hm'. apply Forall_cons in Hf. destruct Hf as [_ Hf].
    apply Forall_app. split.
    + destruct_world w. exact Hf.
    + apply Hts. rewrite <- Hp. apply persist_state_config.
      destruct_world w. reflexivity.
Qed.

Lemma op_setConfig_cases (op : Op) :
  (exists c, op = OpSetConfig c) \/ (forall c, op <> OpSetConfig c).
Proof. destruct op; try (right; discriminate). left. eauto. Qed.

Lemma op_persist_cases (op : Op) (w : World) :
  (op = OpMicrotask /\ exists rest, microtasks (env w) = PersistState :: rest)
  \/ (op = OpMicrotask -> forall rest, microtasks (env w) <> PersistState :: rest).
Proof.
  destruct op; try (right; discriminate).
  destruct (microtasks (env w)) as [|t rest]; [right; discriminate|].
  destruct t; try (right; discriminate). left. eauto.
Qed.

Lemma persistence_off_perform (op : Op) (w : World) :
  persistence_off op ->
  persist_state w = false ->
  Forall (fun t => t <> PersistState) (microtasks (env w)) ->
  storage (perform w op) = storage w
  /\ persist_state (perform w op) = false
  /\ Forall (fun t => t <> PersistState) (microtasks (env (perform w op))).
Proof.
  intros Hoff Hp Hf.
  destruct (op_setConfig_cases op) as [[c ->]|Hno].
  - destruct c as [c|]; simpl in *; [|auto].
    destruct (Config.card c) as [cc|] eqn:Ec; simpl.
    + rewrite Hoff. unfold storage, persist_state, queueMicrotask.
      destruct_world w. simpl in *. rewrite Hoff. repeat split.
      apply Forall_app. split; [exact Hf|]. repeat constructor. discriminate.
    + unfold storage, persist_state. destruct_world w. simpl in *.
      rewrite Hoff. auto.
  - destruct (still_perform op w) as (H1 & H2 & H3).
    + exact Hno.
    + intros -> rest E. rewrite E in Hf. apply Forall_cons in Hf.
      destruct Hf as [Hx _]. apply Hx. reflexivity.
    + split; [exact H1|]. split; [|auto].
      rewrite (persist_state_config _ _ H2). exact Hp.
Qed.

(** X7: as long as no configuration turns [persist_state] on, the card
    never touches the storage: whatever the host and the browser do,
    nothing is written and the stored entries stay as they were. *)
Theorem no_write_without_persist_state (loader : LoadCardHelpers)
    (store : option (gmap string string)) (ops : list Op) :
  Forall persistence_off ops ->
  let w := foldl perform (boot loader store) ops in
  storageWrites (env w) = [] /\ localStorage (env w) = store.
Proof.
  intros Hoff. simpl.
  assert (H : let w := foldl perform (boot loader store) ops in
              storage w = (store, [])
              /\ persist_state w = false
              /\ Forall (fun t => t <> PersistState) (microtasks (env w))).
  { induction ops as [|op ops IH] using rev_ind.
    - simpl. repeat split. constructor.
    - apply Forall_app in Hoff. destruct Hoff as [Hoff Hop].
      apply Forall_cons in Hop. destruct Hop as [Hop _].
      destruct (IH Hoff) as (Hs & Hp & Hf). simpl. rewrite foldl_app. simpl.
      destruct (persistence_off_perform op _ Hop Hp Hf) as (Hs' & Hp' & Hf').
      rewrite Hs', Hs. auto. }
  simpl in H. destruct H as (Hs & _). unfold storage in Hs.
  injection Hs as H1 H2. auto.
Qed.

Lemma no_write_without_persist_state_witness :
  let w := foldl perform (boot xHost (Some ∅))
             [OpSetConfig (Some cardA); OpConnected; OpMicrotask;
              OpDocumentEvent toggleA; OpAnimationFrame; OpMicrotask; OpMicrotask] in
  show (this w) = true
  /\ storageWrites (env w) = [] /\ localStorage (env w) = Some ∅.
Proof.
  split; [reflexivity|].
  apply (no_write_without_persist_state xHost (Some ∅)).
  repeat constructor.
Defined.

Lemma persistState_cases (w : World) :
  persistState w = w
  \/ exists kv, write_ok kv
                /\ storageWrites (env (persistState w)) = kv :: storageWrites (env w).
Proof.
  unfold persistState. destruct (localStorage (env w)) as [store|]; [|auto].
  unfold _getStorageKey. destruct (config (this w)) as [c|]; [|auto].
  right. eexists. split; [|destruct_world w; reflexivity]. split; simpl.
  - destruct (show (this w)); auto.
  - eauto.
Qed.

(** X8: every write the card ever makes stores the text ["true"] or
    ["false"] under a key made of the fixed prefix and an instance id. *)
Theorem writes_well_formed (loader : LoadCardHelpers)
    (store : option (gmap string string)) (ops : list Op) :
  Forall write_ok (storageWrites (env (foldl perform (boot loader store) ops))).
Proof.
  induction ops as [|op ops IH] using rev_ind; [constructor|].
  rewrite foldl_app. simpl. set (w := foldl perform (boot loader store) ops) in *.
  assert (Hsame : storage (perform w op) = storage w ->
                  Forall write_ok (storageWrites (env (perform w op)))).
  { unfold storage. intros [= _ ->]. exact IH. }
  destruct (op_setConfig_cases op) as [[c ->]|Hno].
  { apply Hsame. simpl. destruct c as [c|]; [|reflexivity]. simpl.
    destruct (Config.card c); simpl; [destruct (or_false _)|];
      unfold storage; destruct_world w; reflexivity. }
  destruct (op_persist_cases op w) as [[-> [rest E]]|Hnp].
  - simpl. unfold runMicrotask. rewrite E. simpl.
    destruct (persistState_cases (set_microtasks rest w)) as [->|(kv & Hkv & ->)].
    + destruct_world w. exact IH.
    + constructor; [exact Hkv|]. destruct_world w. exact IH.
  - apply Hsame. apply still_perform; assumption.
Qed.

(** The restore closure queued by [setConfig] is the second microtask; the
    first one only starts loading the helpers. *)
Lemma restore_after_setConfig (i d : string) (cc : CardConfig.t) (hp : option bool)
    (loader : LoadCardHelpers) (saved : option (gmap string string)) :
  let c := Config.mk i d (Some cc) (Some true) hp in
  let fresh := snd (setConfig (Some c) (boot loader saved)) in
  show (this (runMicrotasks 2 fresh))
  = show (this (restoreState c fresh)).
Proof.
  simpl. unfold runMicrotask. simpl.
  destruct loader as [| |h]; simpl; unfold restoreState; simpl;
    destruct saved as [store|]; simpl; try reflexivity;
    destruct (store !! _); try reflexivity;
    destruct (negb _); try reflexivity;
    rewrite !show_computeAndSetVisible; reflexivity.
Qed.

(** X9: what the persisting closure writes, the restore closure of a
    fresh card reads back: a new instance configured with the same id and
    [persist_state] on ends up with the [show] that was saved, whatever its
    own [default] says. *)
Theorem persist_then_restore (c : Config.t) (store : gmap string string)
    (w : World) (d : string) (cc : CardConfig.t) (hp : option bool)
    (loader : LoadCardHelpers) :
  config (this w) = Some c ->
  localStorage (env w) = Some store ->
  let c' := Config.mk (Config.id c) d (Some cc) (Some true) hp in
  let fresh := snd (setConfig (Some c') (boot loader (localStorage (env (persistState w))))) in
  show (this (runMicrotasks 2 fresh)) = show (this w).
Proof.
  intros Hc Hs. cbv zeta. rewrite restore_after_setConfig.
  set (c' := Config.mk (Config.id c) d (Some cc) (Some true) hp).
  destruct (persistState_writes_show c store w Hc Hs) as [_ Hst]. rewrite Hst.
  set (value := if show (this w) then "true" else "false").
  set (fresh := snd (setConfig _ _)).
  assert (Hf : fresh = stored c' value store fresh).
  { subst fresh. reflexivity. }
  rewrite Hf, restoreState_stored.
  assert (Hv : String.eqb value "true" = show (this w)).
  { subst value. destruct (show (this w)); reflexivity. }
  rewrite Hv. destruct (eqb _ _) eqn:E.
  - apply eqb_prop in E. rewrite <- Hf. symmetry. exact E.
  - rewrite show_computeAndSetVisible. generalize (stored c' value store fresh).
    intros w0. destruct_world w0. reflexivity.
Qed.

Lemma persist_then_restore_witness :
  let w := set_show true (snd (setConfig (Some cardA) (boot xHost (Some ∅)))) in
  show (this (runMicrotasks 2
          (snd (setConfig (Some (Config.mk "a" "hide" (Some xCard) (Some true) None))
                  (boot LoaderMissing (localStorage (env (persistState w))))))))
  = true.
Proof.
  intros w.
  exact (persist_then_restore cardA ∅ w "hide" xCard None LoaderMissing eq_refl eq_refl).
Defined.

(** ** From configuration to the child card *)

(** X10: configuring a fresh card whose host can create elements, with
    persistence off, and letting the queued microtasks run: the child
    built by the host is installed and cached under the key of its
    configuration, [show] is the configured default, [visible] is true
    exactly when the default is ["show"] or the child is an error card,
    one notification is dispatched exactly in that case, and no work is
    left in the queue. *)
Theorem configure_creates_child (i d : string) (cc : CardConfig.t)
    (ps hp : option bool) (create : CardConfig.t -> string * option SizeCall)
    (store : option (gmap string string)) :
  or_false ps = false ->
  let c := Config.mk i d (Some cc) ps hp in
  let el := Element.mk 0 (create cc).1 (create cc).2 in
  let w := runMicrotasks 5
             (snd (setConfig (Some c)
                     (boot (LoaderResolves (Some (mkHelpers (Some create)))) store))) in
  card (this w) = Some el
  /\ cardCache (this w) = {[ _cardConfigKey cc := el ]}
  /\ microtasks (env w) = []
  /\ show (this w) = String.eqb d "show"
  /\ visible (this w) = VBool (String.eqb d "show" || isErrorCard el)
  /\ dispatched (env w)
     = (if String.eqb d "show" || isErrorCard el
        then ["card-visibility-changed"] else [])
  /\ storageWrites (env w) = [].
Proof.
  intros Hps. cbv zeta. simpl setConfig. rewrite Hps.
  destruct (create cc) as [name size] eqn:Ec.
  unfold runMicrotasks, runMicrotask, queueMicrotask. simpl.
  unfold _createCard_body. simpl. rewrite lookup_empty, Ec. simpl.
  destruct (String.eqb d "show"), (String.eqb name "hui-error-card") eqn:En;
    unfold createCard_resume; simpl;
    repeat (unfold _computeAndSetVisible, _computeVisibility, persist_state,
              hide_in_preview, isErrorCard; simpl; rewrite ?Hps, ?En; simpl);
    repeat split.
Qed.

Lemma configure_creates_child_witness :
  card (this (runMicrotasks 5 (snd (setConfig (Some cardA) (boot xHost None)))))
  = Some (Element.mk 0 "hui-x" None).
Proof.
  exact (proj1 (configure_creates_child "a" "hide" xCard None None
                  (fun _ => ("hui-x", None)) None eq_refl)).
Defined.

(** X11: when the helpers cannot be loaded, or lack [createCardElement],
    the fallback of [_createCard] throws, so the creation queued by
    [setConfig] ends after three microtasks without a child: nothing is
    installed or cached and the visibility is not reconciled. *)
Theorem configure_without_helpers (i d : string) (cc : CardConfig.t)
    (ps hp : option bool) (loader : LoadCardHelpers)
    (store : option (gmap string string)) :
  or_false ps = false ->
  loaderCreates loader = false ->
  let c := Config.mk i d (Some cc) ps hp in
  let w := runMicrotasks 3 (snd (setConfig (Some c) (boot loader store))) in
  card (this w) = None
  /\ cardCache (this w) = ∅
  /\ microtasks (env w) = []
  /\ visible (this w) = VBool false
  /\ dispatched (env w) = [].
Proof.
  intros Hps Hl. cbv zeta. simpl setConfig. rewrite Hps.
  unfold runMicrotasks, runMicrotask, queueMicrotask. simpl.
  destruct loader as [| |[[[create|]]|]]; try discriminate; simpl;
    unfold _createCard_body; simpl; rewrite lookup_empty; simpl; repeat split.
Qed.

Lemma configure_without_helpers_witness :
  card (this (runMicrotasks 3 (snd (setConfig (Some cardA) (boot LoaderRejects None)))))
  = None.
Proof.
  exact (proj1 (configure_without_helpers "a" "hide" xCard None None
                  LoaderRejects None eq_refl eq_refl)).
Defined.

(** ** The cache over whole runs *)

Lemma wf_reachable loader storage (ops : list Op) :
  wf (foldl perform (boot loader storage) ops).
Proof.
  induction ops as [|op ops IH] using rev_ind; [apply wf_boot|].
  rewrite foldl_app. simpl. apply wf_perform, IH.
Qed.

Lemma calm_cache (w w' : World) :
  calm w w' -> cardCache (this w') = cardCache (this w).
Proof. intros [H _]. unfold widget in H. congruence. Qed.

Lemma cache_queueMicrotask (t : Task) (w : World) :
  cardCache (this (queueMicrotask t w)) = cardCache (this w).
Proof. destruct_world w. reflexivity. Qed.

Lemma cache_runTask (t : Task) (w : World) (k : string) (el : Element.t) :
  task_ok w t ->
  cardCache (this w) !! k = Some el ->
  cardCache (this (runTask t w)) !! k = Some el.
Proof.
  intros Ht Hk. destruct t as [c|c k0|key el0 c|c k0|el0 k0| |c|]; simpl.
  - rewrite cache_queueMicrotask, (proj1 (ensureHelpers_cache w)). exact Hk.
  - rewrite cache_queueMicrotask, (proj1 (ensureHelpers_cache w)). exact Hk.
  - rewrite cache_queueMicrotask, (proj1 (ensureHelpers_cache w)). exact Hk.
  - pose proof (createCard_body_cache c w) as Hb. simpl in Hb.
    destruct (_createCard_body c w) as [[el'|e] w'].
    + rewrite cache_queueMicrotask. destruct Hb as (Hc & _ & Hcase). rewrite Hc.
      destruct (decide (_cardConfigKey c = k)) as [<-|Hne].
      * rewrite Hk in Hcase. destruct Hcase as [-> _]. apply lookup_insert_eq.
      * rewrite lookup_insert_ne by exact Hne. exact Hk.
    + destruct Hb as (Hc & _). rewrite Hc. exact Hk.
  - destruct k0 as [k0|key el1].
    + assert (H : cardCache (this (createCard_resume el0 w)) = cardCache (this w))
        by apply calm_cache, calm_createCard_resume.
      destruct k0; rewrite ?cache_queueMicrotask, H; exact Hk.
    + simpl in Ht. rewrite (calm_cache _ _ (calm_rebuild_resume key el0 w Ht)).
      exact Hk.
  - rewrite (calm_cache _ _ (calm_computeAndSetVisible w)). exact Hk.
  - rewrite (calm_cache _ _ (calm_restoreState c w)). exact Hk.
  - rewrite (calm_cache _ _ (calm_persistState w)). exact Hk.
Qed.

Lemma cache_perform (op : Op) (w : World) (k : string) (el : Element.t) :
  wf w ->
  cardCache (this w) !! k = Some el ->
  cardCache (this (perform w op)) !! k = Some el.
Proof.
  intros Hw Hk. destruct op as [c|b|h|changed| | |c|el0|e| |]; simpl.
  - rewrite (calm_cache _ _ (calm_setConfig c w)). exact Hk.
  - destruct_world w. exact Hk.
  - rewrite (calm_cache _ _ (calm_hass_set h w)). exact Hk.
  - unfold updated. destruct (_ || _); [|exact Hk].
    rewrite (calm_cache _ _ (calm_computeAndSetVisible w)). exact Hk.
  - destruct_world w. exact Hk.
  - destruct_world w. exact Hk.
  - apply cache_runTask; [exact I|exact Hk].
  - unfold ll_rebuild.
    destruct (rebuildListeners (env w) !! Element.ref el0) as [[key c]|];
      [|exact Hk].
    rewrite cache_queueMicrotask. exact Hk.
  - unfold documentEvent. destruct (listening (env w)); [|exact Hk].
    rewrite (calm_cache _ _ (calm_handle e w)). exact Hk.
  - rewrite (calm_cache _ _ (calm_animationFrame w)). exact Hk.
  - unfold runMicrotask. destruct (microtasks (env w)) as [|t rest] eqn:E;
      [exact Hk|].
    destruct Hw as (_ & _ & Ht). rewrite E in Ht. apply Forall_cons in Ht.
    apply cache_runTask.
    + destruct_world w. destruct t as [| | | |el1 [|key el2]| | |]; apply Ht.
    + destruct_world w. exact Hk.
Qed.

(** X12: the cache never evicts or replaces: an element cached under a key
    stays cached under that key, as the same element, whatever happens to
    the card afterwards (reconfiguration, rebuild requests, further
    creations). *)
Theorem cache_never_evicts (loader : LoadCardHelpers)
    (storage : option (gmap string string)) (ops ops' : list Op)
    (k : string) (el : Element.t) :
  cardCache (this (foldl perform (boot loader storage) ops)) !! k = Some el ->
  cardCache (this (foldl perform (boot loader storage) (ops ++ ops')%list)) !! k
  = Some el.
Proof.
  intros Hk. induction ops' as [|op ops' IH] using rev_ind.
  - rewrite app_nil_r. exact Hk.
  - rewrite app_assoc, foldl_app. simpl. apply cache_perform; [|exact IH].
    apply wf_reachable.
Qed.

Lemma cache_never_evicts_witness :
  cardCache (this (foldl perform (boot xHost None)
                     ([OpCreateCard xCard; OpMicrotask]
                      ++ [OpSetConfig (Some cardA); OpCreateCard cyclicA;
                          OpMicrotask; OpMicrotask])%list))
    !! _cardConfigKey xCard
  = Some (Element.mk 0 "hui-x" None).
Proof.
  apply (cache_never_evicts xHost None [OpCreateCard xCard; OpMicrotask]).
  vm_compute. reflexivity.
Defined.

(** ** Rebuild requests *)

Lemma createCard_body_listeners (c : CardConfig.t) (w : World) :
  let key := _cardConfigKey c in
  let w' := snd (_createCard_body c w) in
  (cardCache (this w') = cardCache (this w)
   /\ rebuildListeners (env w') = rebuildListeners (env w))
  \/ (cardCache (this w) !! key = None
      /\ exists el, Element.ref el = nextRef (env w)
                    /\ cardCache (this w') = <[key := el]> (cardCache (this w))
                    /\ rebuildListeners (env w')
                       = <[nextRef (env w) := (key, c)]> (rebuildListeners (env w))).
Proof.
  destruct_world w. unfold _createCard_body. simpl.
  destruct (cardCache0 !! _cardConfigKey c) eqn:E; [auto|].
  destruct cardHelpers0 as [[[create|]]|]; simpl; auto.
  destruct (create c) as [name size]. right. split; [reflexivity|].
  eexists (Element.mk nextRef0 name size). unfold bindHass. simpl.
  destruct _hass0; simpl; auto.
Qed.

Lemma listeners_cached_widget (w w' : World) :
  cardCache (this w') = cardCache (this w) ->
  rebuildListeners (env w') = rebuildListeners (env w) ->
  listeners_cached w -> listeners_cached w'.
Proof. unfold listeners_cached. intros -> ->. auto. Qed.

Lemma listeners_cached_calm (w w' : World) :
  calm w w' -> listeners_cached w -> listeners_cached w'.
Proof.
  intros [H _]. unfold widget in H. injection H as Hc _ _ Hl.
  apply listeners_cached_widget; assumption.
Qed.

Lemma listeners_cached_runTask (t : Task) (w : World) :
  task_ok w t -> listeners_cached w -> listeners_cached (runTask t w).
Proof.
  intros Ht Hl.
  assert (He : forall t0, listeners_cached (queueMicrotask t0 (_ensureHelpers w))).
  { intros t0. apply (listeners_cached_widget w); [| |exact Hl].
    - rewrite cache_queueMicrotask. apply ensureHelpers_cache.
    - destruct_world w. unfold _ensureHelpers. simpl.
      destruct cardHelpers0; [reflexivity|]. destruct loadCardHelpers0; reflexivity. }
  destruct t as [c|c k0|key el0 c|c k0|el0 k0| |c|]; simpl; try apply He.
  - assert (Hb : listeners_cached (snd (_createCard_body c w))).
    { destruct (createCard_body_listeners c w) as [[Hc Hr]|(Hn & el & Hel & Hc & Hr)].
      - apply (listeners_cached_widget w); assumption.
      - simpl in Hc, Hr. unfold listeners_cached. rewrite Hc, Hr.
        intros r key c0. destruct (decide (nextRef (env w) = r)) as [<-|Hne].
        + rewrite lookup_insert_eq. intros [= <- <-]. exists el.
          split; [apply lookup_insert_eq|exact Hel].
        + rewrite lookup_insert_ne by exact Hne. intros Hr0.
          destruct (Hl _ _ _ Hr0) as (el' & Hk' & Href). exists el'.
          split; [|exact Href]. rewrite lookup_insert_ne; [exact Hk'|].
          intros <-. congruence. }
    destruct (_createCard_body c w) as [[el'|e] w']; simpl in Hb; [|exact Hb].
    apply (listeners_cached_widget w'); [apply cache_queueMicrotask| |exact Hb].
    destruct_world w'. reflexivity.
  - destruct k0 as [k0|key el1].
    + pose proof (listeners_cached_calm _ _ (calm_createCard_resume el0 w) Hl) as H.
      destruct k0; [|exact H].
      apply (listeners_cached_widget (createCard_resume el0 w));
        [apply cache_queueMicrotask| |exact H].
      generalize (createCard_resume el0 w). intros w0. destruct_world w0. reflexivity.
    + apply (listeners_cached_calm w); [|exact Hl].
      apply calm_rebuild_resume, Ht.
  - apply (listeners_cached_calm w); [apply calm_computeAndSetVisible|exact Hl].
  - apply (listeners_cached_calm w); [apply calm_restoreState|exact Hl].
  - apply (listeners_cached_calm w); [apply calm_persistState|exact Hl].
Qed.

Lemma listeners_cached_perform (op : Op) (w : World) :
  wf w -> listeners_cached w -> listeners_cached (perform w op).
Proof.
  intros Hw Hl. destruct op as [c|b|h|changed| | |c|el0|e| |]; simpl.
  - apply (listeners_cached_calm w); [apply calm_setConfig|exact Hl].
  - apply (listeners_cached_widget w); [| |exact Hl]; destruct_world w; reflexivity.
  - apply (listeners_cached_calm w); [apply calm_hass_set|exact Hl].
  - unfold updated. destruct (_ || _); [|exact Hl].
    apply (listeners_cached_calm w); [apply calm_computeAndSetVisible|exact Hl].
  - apply (listeners_cached_widget w); [| |exact Hl]; destruct_world w; reflexivity.
  - apply (listeners_cached_widget w); [| |exact Hl]; destruct_world w; reflexivity.
  - apply listeners_cached_runTask; [exact I|exact Hl].
  - unfold ll_rebuild.
    destruct (rebuildListeners (env w) !! Element.ref el0) as [[key c]|];
      [|exact Hl].
    apply (listeners_cached_widget w); [| |exact Hl]; destruct_world w; reflexivity.
  - unfold documentEvent. destruct (listening (env w)); [|exact Hl].
    apply (listeners_cached_calm w); [apply calm_handle|exact Hl].
  - apply (listeners_cached_calm w); [apply calm_animationFrame|exact Hl].
  - unfold runMicrotask. destruct (microtasks (env w)) as [|t rest] eqn:E;
      [exact Hl|].
    destruct Hw as (_ & _ & Ht). rewrite E in Ht. apply Forall_cons in Ht.
    apply listeners_cached_runTask.
    + destruct_world w. destruct t as [| | | |el1 [|key el2]| | |]; apply Ht.
    + apply (listeners_cached_widget w); [| |exact Hl]; destruct_world w; reflexivity.
Qed.

Lemma listeners_cached_reachable loader storage (ops : list Op) :
  listeners_cached (foldl perform (boot loader storage) ops).
Proof.
  induction ops as [|op ops IH] using rev_ind.
  - intros r key c H. unfold boot in H. simpl in H. rewrite lookup_empty in H.
    discriminate.
  - rewrite foldl_app. simpl. apply listeners_cached_perform; [|exact IH].
    apply wf_reachable.
Qed.

(** X14: a rebuild request does not build anything.  For an element with
    a registered [ll-rebuild] listener, in any state a fresh card can
    reach: the request queues the rebuild closure; the [_createCard] it
    calls finds the listener's key in the cache and returns the cached
    element, which is the requesting element itself, without changing the
    state; the closure then installs that element as the current child,
    leaving the cache and the element counter as they were. *)
Theorem rebuild_reinstalls_cached (loader : LoadCardHelpers)
    (storage : option (gmap string string)) (ops : list Op)
    (el : Element.t) (key : string) (c : CardConfig.t) :
  let w := foldl perform (boot loader storage) ops in
  rebuildListeners (env w) !! Element.ref el = Some (key, c) ->
  microtasks (env (ll_rebuild el w))
  = (microtasks (env w) ++ [RebuildStart key el c])%list
  /\ key = _cardConfigKey c
  /\ exists cached,
       cardCache (this w) !! key = Some cached
       /\ Element.ref cached = Element.ref el
       /\ _createCard c w = (Returned cached, w)
       /\ card (this (rebuild_resume key cached w)) = Some cached
       /\ cardCache (this (rebuild_resume key cached w)) = cardCache (this w)
       /\ nextRef (env (rebuild_resume key cached w)) = nextRef (env w).
Proof.
  intros w Hr.
  pose proof (wf_reachable loader storage ops) as Hw. fold w in Hw.
  pose proof (listeners_cached_reachable loader storage ops) as Hl. fold w in Hl.
  destruct Hw as (Hok & Hlok & _).
  split; [|split].
  - unfold ll_rebuild. rewrite Hr. destruct_world w. reflexivity.
  - exact (Hlok _ _ _ Hr).
  - destruct (Hl _ _ _ Hr) as (cached & Hk & Href). exists cached.
    split; [exact Hk|]. split; [exact Href|]. split.
    + apply createCard_hit; [exact Hok|]. rewrite <- (Hlok _ _ _ Hr). exact Hk.
    + pose proof (calm_rebuild_resume key cached w Hk) as [Hwid _].
      unfold widget in Hwid. injection Hwid as Hc Hn _ _.
      split; [|split; assumption].
      unfold rebuild_resume.
      assert (Hcard : forall w0, card (this (_computeAndSetVisible w0)) = card (this w0)).
      { intros w0. reconcile_cases w0. }
      rewrite Hcard. unfold bindHass. destruct_world w. simpl.
      destruct _hass0; reflexivity.
Qed.

Lemma rebuild_reinstalls_cached_witness :
  let w := foldl perform (boot xHost None)
             [OpSetConfig (Some cardA); OpMicrotask; OpMicrotask; OpMicrotask] in
  _createCard xCard w = (Returned (Element.mk 0 "hui-x" None), w).
Proof.
  intros w.
  destruct (rebuild_reinstalls_cached xHost None
              [OpSetConfig (Some cardA); OpMicrotask; OpMicrotask; OpMicrotask]
              (Element.mk 0 "hui-x" None) (_cardConfigKey xCard) xCard)
    as (_ & _ & cached & Hk & _ & Hc & _).
  - vm_compute. reflexivity.
  - fold w in Hk, Hc. rewrite Hc. f_equal. f_equal.
    assert (Hk' : cardCache (this w) !! _cardConfigKey xCard
                  = Some (Element.mk 0 "hui-x" None)) by (vm_compute; reflexivity).
    congruence.
Defined.

(** ** The session handle *)

Lemma hass_ok_view (w w' : World) : hassView w' = hassView w -> hass_ok w -> hass_ok w'.
Proof. unfold hassView, hass_ok. intros [= -> -> ->]. auto. Qed.

Lemma hassView_computeAndSetVisible (w : World) :
  hassView (_computeAndSetVisible w) = hassView w.
Proof. unfold hassView. reconcile_cases w. Qed.

Lemma hassView_ensureHelpers (w : World) : hassView (_ensureHelpers w) = hassView w.
Proof.
  destruct_world w. unfold _ensureHelpers. simpl.
  destruct cardHelpers0; [reflexivity|]. destruct loadCardHelpers0; reflexivity.
Qed.

Lemma hassView_queueMicrotask (t : Task) (w : World) :
  hassView (queueMicrotask t w) = hassView w.
Proof. destruct_world w. reflexivity. Qed.

Lemma hassView_process (w : World) :
  hassView (_processQueuedLovelaceEvent w) = hassView w.
Proof.
  unfold _processQueuedLovelaceEvent.
  destruct (_lastEvent (this w)) as [[d| |]|];
    rewrite ?hassView_computeAndSetVisible; destruct_world w; reflexivity.
Qed.

Lemma hassView_animationFrame (w : World) : hassView (animationFrame w) = hassView w.
Proof.
  unfold animationFrame.
  transitivity (hassView (set_frames 0 w)); [|destruct_world w; reflexivity].
  generalize (set_frames 0 w). induction (frames (env w)) as [|n IH]; intros w0;
    [reflexivity|].
  simpl. rewrite hassView_process. apply IH.
Qed.

Lemma hassView_restoreState (c : Config.t) (w : World) :
  hassView (restoreState c w) = hassView w.
Proof.
  unfold restoreState. destruct (localStorage (env w)); [|reflexivity].
  simpl. destruct (_ !! _); [|reflexivity]. destruct (negb _); [|reflexivity].
  rewrite hassView_computeAndSetVisible. destruct_world w. reflexivity.
Qed.

Lemma hassView_persistState (w : World) : hassView (persistState w) = hassView w.
Proof.
  unfold persistState. destruct (localStorage (env w)); [|reflexivity].
  destruct (_getStorageKey None w); [|reflexivity]. destruct_world w. reflexivity.
Qed.

Lemma hass_ok_bindHass (el : Element.t) (w : World) :
  hass_ok w -> hass_ok (bindHass el w).
Proof.
  unfold hass_ok, bindHass. destruct_world w. simpl.
  intros H. destruct _hass0 as [hv|]; simpl; [|exact H].
  intros el0 h -> [= <-].
  destruct (decide (Element.ref el = Element.ref el0)) as [->|Hne].
  - apply lookup_insert_eq.
  - rewrite lookup_insert_ne by exact Hne. auto.
Qed.

Lemma hass_ok_install (el : Element.t) (w : World) :
  hass_ok (bindHass el (set_card (Some el) w)).
Proof.
  unfold hass_ok, bindHass. destruct_world w. simpl.
  destruct _hass0 as [hv|]; simpl; [|discriminate].
  intros el0 h [= <-] [= <-]. apply lookup_insert_eq.
Qed.

Lemma hass_ok_createCard_body (c : CardConfig.t) (w : World) :
  hass_ok w -> hass_ok (snd (_createCard_body c w)).
Proof.
  intros H. unfold _createCard_body.
  destruct (cardCache (this w) !! _); [exact H|].
  set (w1 := set_nextRef _ w).
  assert (H1 : hass_ok w1).
  { apply (hass_ok_view w); [subst w1; destruct_world w; reflexivity|exact H]. }
  assert (Hh : cardHelpers (this w1) = cardHelpers (this w))
    by (subst w1; destruct_world w; reflexivity).
  clearbody w1. rewrite Hh.
  destruct (cardHelpers (this w)) as [[[create|]]|]; try exact H1.
  destruct (create c) as [name size]. cbv beta iota zeta delta [snd].
  set (w2 := set_rebuildListeners _ w1).
  assert (H2 : hass_ok w2).
  { apply (hass_ok_view w1); [subst w2; destruct_world w1; reflexivity|exact H1]. }
  clearbody w2.
  set (w3 := bindHass _ w2).
  assert (H3 : hass_ok w3) by (apply hass_ok_bindHass, H2). clearbody w3.
  apply (hass_ok_view w3); [destruct_world w3; reflexivity|exact H3].
Qed.

Lemma hass_ok_runTask (t : Task) (w : World) : hass_ok w -> hass_ok (runTask t w).
Proof.
  intros H.
  assert (He : forall t0, hass_ok (queueMicrotask t0 (_ensureHelpers w))).
  { intros t0. apply (hass_ok_view w); [|exact H].
    rewrite hassView_queueMicrotask. apply hassView_ensureHelpers. }
  destruct t as [c|c k0|key el0 c|c k0|el0 k0| |c|]; simpl; try apply He.
  - pose proof (hass_ok_createCard_body c w H) as Hb.
    destruct (_createCard_body c w) as [[el'|e] w']; simpl in Hb; [|exact Hb].
    apply (hass_ok_view w'); [apply hassView_queueMicrotask|exact Hb].
  - destruct k0 as [k0|key el1].
    + assert (Hr : hass_ok (createCard_resume el0 w)).
      { unfold createCard_resume.
        eapply hass_ok_view; [apply hassView_computeAndSetVisible|].
        apply hass_ok_install. }
      destruct k0; [|exact Hr].
      apply (hass_ok_view (createCard_resume el0 w));
        [apply hassView_queueMicrotask|exact Hr].
    + unfold rebuild_resume.
      eapply hass_ok_view; [apply hassView_computeAndSetVisible|].
      set (w1 := set_cardCache _ w).
      replace (set_card (Some el0) w1)
        with (set_cardCache (<[key:=el0]> (cardCache (this w))) (set_card (Some el0) w))
        by (subst w1; destruct_world w; reflexivity).
      generalize (<[key:=el0]> (cardCache (this w))). intros m.
      pose proof (hass_ok_install el0 w) as Hi. revert Hi.
      unfold hass_ok, bindHass. destruct_world w. simpl.
      destruct _hass0; simpl; auto.
  - apply (hass_ok_view w); [apply hassView_computeAndSetVisible|exact H].
  - apply (hass_ok_view w); [apply hassView_restoreState|exact H].
  - apply (hass_ok_view w); [apply hassView_persistState|exact H].
Qed.

Lemma hass_ok_hass_set (h : option HomeAssistant) (w : World) :
  hass_ok w -> hass_ok (hass_set h w).
Proof.
  unfold hass_ok, hass_set. destruct_world w. simpl. intros H.
  destruct config0; [|exact H]. destruct h as [hv|]; [|exact H]. simpl.
  destruct card0 as [el|]; simpl; [|discriminate].
  intros el0 h0 [= <-] [= <-]. apply lookup_insert_eq.
Qed.

Lemma hass_ok_perform (op : Op) (w : World) : hass_ok w -> hass_ok (perform w op).
Proof.
  intros H. destruct op as [c|b|h|changed| | |c|el0|e| |]; simpl.
  - apply (hass_ok_view w); [|exact H]. destruct c as [c|]; [|reflexivity]. simpl.
    destruct (Config.card c); simpl;
      [destruct (or_false _); rewrite ?hassView_queueMicrotask|];
      destruct_world w; reflexivity.
  - apply (hass_ok_view w); [destruct_world w; reflexivity|exact H].
  - apply hass_ok_hass_set, H.
  - unfold updated. destruct (_ || _); [|exact H].
    apply (hass_ok_view w); [apply hassView_computeAndSetVisible|exact H].
  - apply (hass_ok_view w); [destruct_world w; reflexivity|exact H].
  - apply (hass_ok_view w); [destruct_world w; reflexivity|exact H].
  - apply hass_ok_runTask, H.
  - unfold ll_rebuild.
    destruct (rebuildListeners (env w) !! Element.ref el0) as [[key c]|];
      [|exact H].
    apply (hass_ok_view w); [apply hassView_queueMicrotask|exact H].
  - unfold documentEvent, _handleLovelaceDomEvent.
    destruct (listening (env w)); [|exact H].
    apply (hass_ok_view w); [|exact H]. destruct_world w. simpl.
    destruct _pendingEvent0; reflexivity.
  - apply (hass_ok_view w); [apply hassView_animationFrame|exact H].
  - unfold runMicrotask. destruct (microtasks (env w)) as [|t rest]; [exact H|].
    apply hass_ok_runTask.
    apply (hass_ok_view w); [destruct_world w; reflexivity|exact H].
Qed.

(** X15: the current child always carries the session handle of the card:
    in every state a fresh card can reach, if a child is installed and a
    handle has been set, the child's [hass] is that handle, whether the
    handle arrived before or after the child. *)
Theorem current_child_has_hass (loader : LoadCardHelpers)
    (storage : option (gmap string string)) (ops : list Op)
    (el : Element.t) (h : HomeAssistant) :
  let w := foldl perform (boot loader storage) ops in
  card (this w) = Some el -> _hass (this w) = Some h ->
  elementHass (env w) !! Element.ref el = Some h.
Proof.
  simpl. revert el h. change (hass_ok (foldl perform (boot loader storage) ops)).
  induction ops as [|op ops IH] using rev_ind.
  - intros el h H. discriminate.
  - rewrite foldl_app. simpl. apply hass_ok_perform, IH.
Qed.

Lemma current_child_has_hass_witness :
  elementHass (env (foldl perform (boot xHost None)
                      [OpSetConfig (Some cardA); OpSetHass (Some 1); OpMicrotask;
                       OpMicrotask; OpMicrotask; OpMicrotask; OpSetHass (Some 2)]))
    !! 0
  = Some 2.
Proof.
  apply (current_child_has_hass xHost None
           [OpSetConfig (Some cardA); OpSetHass (Some 1); OpMicrotask;
            OpMicrotask; OpMicrotask; OpMicrotask; OpSetHass (Some 2)]
           (Element.mk 0 "hui-x" None) 2); vm_compute; reflexivity.
Defined.



(** ** The cost of a frame *)

(** X17: a frame costs at most one reconciliation, however many signals
    the burst has: starting from an idle card it dispatches at most one
    notification and queues at most one storage write, and leaves the card
    idle again. *)
Theorem frame_at_most_one (burst : list Event) (w : World) :
  idle w ->
  let w' := frame burst w in
  idle w'
  /\ (dispatched (env w') = dispatched (env w)
      \/ dispatched (env w') = "card-visibility-changed" :: dispatched (env w))
  /\ (microtasks (env w') = microtasks (env w)
      \/ microtasks (env w') = (microtasks (env w) ++ [PersistState])%list).
Proof.
  intros Hi. simpl. rewrite (frame_idle burst w Hi).
  destruct burst as [|e es]; [auto|].
  set (w1 := set_lastEvent _ w).
  assert (H1 : frames (env w1) = 0 /\ dispatched (env w1) = dispatched (env w)
               /\ microtasks (env w1) = microtasks (env w)).
  { subst w1. unfold idle, coalescer in Hi. destruct_world w. simpl in *.
    injection Hi as _ _ ->. auto. }
  destruct H1 as (Hf & Hd & Hm). rewrite <- Hd, <- Hm. split.
  - unfold idle. rewrite process_coalescer, Hf. reflexivity.
  - clearbody w1.
    assert (Hgen : forall w0,
               (dispatched (env (_computeAndSetVisible w0)) = dispatched (env w0)
                \/ dispatched (env (_computeAndSetVisible w0))
                   = "card-visibility-changed" :: dispatched (env w0))
               /\ (microtasks (env (_computeAndSetVisible w0)) = microtasks (env w0)
                   \/ microtasks (env (_computeAndSetVisible w0))
                      = (microtasks (env w0) ++ [PersistState])%list)).
    { intros w0. reconcile_cases w0; auto. }
    unfold _processQueuedLovelaceEvent.
    destruct (_lastEvent (this w1)) as [[d| |]|].
    + match goal with
      | |- context [_computeAndSetVisible ?x] =>
          specialize (Hgen x);
          replace (dispatched (env x)) with (dispatched (env w1)) in Hgen
            by (destruct_world w1; reflexivity);
          replace (microtasks (env x)) with (microtasks (env w1)) in Hgen
            by (destruct_world w1; reflexivity)
      end.
      exact Hgen.
    + destruct_world w1. auto.
    + destruct_world w1. auto.
    + destruct_world w1. auto.
Qed.

Lemma frame_at_most_one_witness :
  dispatched (env (frame [toggleA; toggleA; toggleA]
                     (snd (setConfig (Some cardA) (boot xHost None)))))
  = ["card-visibility-changed"].
Proof.
  destruct (frame_at_most_one [toggleA; toggleA; toggleA]
              (snd (setConfig (Some cardA) (boot xHost None))) eq_refl)
    as (_ & [H|H] & _).
  - vm_compute in H. discriminate.
  - exact H.
Defined.

(** ** What signals cannot do *)

Lemma visInputs_handle (e : Event) (w : World) :
  visInputs (_handleLovelaceDomEvent e w) = visInputs w.
Proof.
  destruct_world w. unfold _handleLovelaceDomEvent. simpl.
  destruct _pendingEvent0; reflexivity.
Qed.

Lemma visInputs_process (w : World) :
  visInputs (_processQueuedLovelaceEvent w) = visInputs w.
Proof.
  assert (Hc : forall w0, visInputs (_computeAndSetVisible w0) = visInputs w0).
  { intros w0. unfold visInputs. reconcile_cases w0. }
  unfold _processQueuedLovelaceEvent.
  destruct (_lastEvent (this w)) as [[d| |]|]; rewrite ?Hc;
    destruct_world w; reflexivity.
Qed.

Lemma visInputs_frame (burst : list Event) (w : World) :
  visInputs (frame burst w) = visInputs w.
Proof.
  unfold frame, animationFrame.
  set (w1 := foldl _ w burst).
  assert (H1 : visInputs w1 = visInputs w).
  { subst w1. revert w. induction burst as [|e es IH]; intros w; [reflexivity|].
    simpl. rewrite IH. apply visInputs_handle. }
  clearbody w1. rewrite <- H1.
  transitivity (visInputs (set_frames 0 w1)); [|destruct_world w1; reflexivity].
  generalize (set_frames 0 w1). induction (frames (env w1)) as [|n IH]; intros w0;
    [reflexivity|].
  simpl. rewrite visInputs_process. apply IH.
Qed.

Lemma visInputs_runFrames (bursts : list (list Event)) (w : World) :
  visInputs (runFrames bursts w) = visInputs w.
Proof.
  unfold runFrames. revert w. induction bursts as [|b bs IH]; intros w; [reflexivity|].
  simpl. rewrite IH. apply visInputs_frame.
Qed.

(** X18: signals cannot hide a card that is previewed (with
    [hide_in_preview] unset or false) nor one whose child is the error
    card: whatever events arrive, in whatever frames, the effective
    visibility stays true and [getCardSize] does not report a hidden
    card. *)
Theorem signals_cannot_hide (bursts : list (list Event)) (w : World) :
  (preview (this w) = true /\ hide_in_preview w = false)
  \/ currentIsError w = true ->
  let w' := runFrames bursts w in
  _computeVisibility w' = VBool true
  /\ getCardSize w' = match card (this w) with
                      | Some el => match Element.getCardSize el with
                                   | Some (SizeReturns n) => n
                                   | _ => 1%Z
                                   end
                      | None => 1%Z
                      end.
Proof.
  intros H. simpl.
  pose proof (visInputs_runFrames bursts w) as Hv. unfold visInputs in Hv.
  injection Hv as Hp Hc Hk.
  assert (Ht : _computeVisibility (runFrames bursts w) = VBool true).
  { apply computeVisibility_true_iff_truthy. rewrite computeVisibility_truthy.
    unfold hide_in_preview, currentIsError in *. rewrite Hp, Hc, Hk.
    destruct H as [[-> ->]| ->]; [reflexivity|].
    rewrite orb_true_r. reflexivity. }
  split; [exact Ht|]. unfold getCardSize. rewrite Ht, Hk. simpl.
  destruct (card (this w)) as [el|]; [|reflexivity].
  destruct (Element.getCardSize el) as [[n|]|]; reflexivity.
Qed.

Lemma signals_cannot_hide_witness :
  _computeVisibility
    (runFrames [[LovelaceDomEvent (mkDetail [IdString "a"] "hide")]]
       (set_preview true (snd (setConfig (Some cardA) (boot xHost None)))))
  = VBool true.
Proof.
  apply (signals_cannot_hide
           [[LovelaceDomEvent (mkDetail [IdString "a"] "hide")]]
           (set_preview true (snd (setConfig (Some cardA) (boot xHost None))))).
  left. split; reflexivity.
Defined.

(** ** Persisting a signal *)

(** X19: with persistence on, a signal that changes [show] reaches the
    storage.  For an idle card with an ordinary child, no preview, an
    up-to-date [visible] and an empty microtask queue: after the frame
    that delivers a signal addressed to the card and the microtask that
    follows, the entry of the card holds the text of the new [show] when
    the signal changed it, and the storage is untouched when it did not. *)
Theorem signal_is_persisted (c : Config.t) (s : Signal) (e : Event)
    (store : gmap string string) (el : Element.t) (w : World) :
  idle w ->
  config (this w) = Some c -> or_false (Config.persist_state c) = true ->
  localStorage (env w) = Some store -> microtasks (env w) = [] ->
  preview (this w) = false -> card (this w) = Some el -> isErrorCard el = false ->
  visible (this w) = VBool (show (this w)) ->
  targeted c s e ->
  let w' := runMicrotask (frame [e] w) in
  let shown := applySignal (show (this w)) s in
  show (this w') = shown
  /\ localStorage (env w')
     = (if eqb shown (show (this w)) then Some store
        else Some (<["local_conditional_card_state_" ++ Config.id c := boolText shown]>
                     store))
  /\ microtasks (env w') = [].
Proof.
  intros Hi Hc Hps Hst Hm Hp Hk He Hv (l & -> & Hin). simpl.
  rewrite (frame_idle _ w Hi). simpl List.last.
  unfold _processQueuedLovelaceEvent.
  unfold idle, coalescer in Hi. destruct_world w. simpl in *.
  injection Hi as -> -> ->. subst.
  rewrite (targeted_applyAction c s l show0 Hin).
  unfold _computeAndSetVisible, _computeVisibility, hide_in_preview, persist_state.
  simpl. rewrite He, Hps. simpl.
  destruct show0, s; simpl; unfold runMicrotask, persistState; simpl; rewrite ?Hps;
    simpl; repeat split.
Qed.

Lemma signal_is_persisted_witness :
  let c := Config.mk "a" "hide" (Some xCard) (Some true) None in
  let w := set_card (Some (Element.mk 0 "hui-x" None))
             (snd (setConfig (Some c) (boot xHost (Some ∅)))) in
  localStorage (env (runMicrotask (frame [toggleA] (set_microtasks [] w))))
  = Some {[ "local_conditional_card_state_a" := "true" ]}.
Proof.
  intros c w.
  exact (proj1 (proj2 (signal_is_persisted c SigToggle toggleA ∅
                         (Element.mk 0 "hui-x" None) (set_microtasks [] w)
                         eq_refl eq_refl eq_refl eq_refl eq_refl eq_refl eq_refl
                         eq_refl eq_refl toggleA_targeted))).
Defined.

(** ** The stub configuration *)

(** X20: the stub configuration offered to the card picker is accepted by
    [setConfig]: the call returns, the card is shown, the creation of the
    child is queued and nothing else is, whatever the default id is. *)
Theorem stub_config_accepted (DEFAULT_ID : string) (w : World) :
  let r := setConfig (Some (getStubConfig DEFAULT_ID)) w in
  fst r = Returned tt
  /\ show (this (snd r)) = true
  /\ _computeVisibility (snd r) = VBool true
  /\ microtasks (env (snd r)) = (microtasks (env w) ++ [SetConfigCreate emptyCard])%list
  /\ storage (snd r) = storage w.
Proof.
  simpl. unfold _computeVisibility, storage. destruct_world w. simpl.
  repeat split. destruct (preview0 && _); reflexivity.
Qed.

(** * Signals over settled runs *)




































